(** * The Redis exercise cache ([0x02-redis_basic/exercise.py])

    A shallow embedding of the module: the decorators [count_calls] and
    [call_history], the utility [replay] and the class [Cache] with its
    methods [store], [get], [get_str] and [get_int].

    The program is a thin layer over two collaborators that are not part of
    the repository: the Redis server reached through the [redis] client
    library, and a few Python builtins ([str], [int], [bytes.decode],
    [uuid4], [print]).  Both are given an executable model here, written
    from their documented behaviour:

    - the server is a finite map from keys to values, a value being a byte
      string or a list of byte strings, together with the sequence of
      commands it has received;
    - a Python [bytes] object is a [string] (a sequence of 8-bit
      characters); a Python [str] is represented by its UTF-8 encoding, so
      that [str.encode] is the identity on the representation and
      [bytes.decode] is a validity check; a [float] is represented by the
      text [repr] gives it;
    - the interpreter is CPython with its default limit of 4300 digits on
      conversions between [int] and text ([sys.get_int_max_str_digits]):
      [int], [repr], [str] and [format] raise [ValueError] beyond it;
    - the network is assumed to work: [ConnectionError] is not modelled. *)

From Stdlib Require Import ZArith NArith Ascii String DecimalString DecimalZ DecimalPos
  DecimalFacts.
From stdpp Require Import gmap strings list.

Open Scope Z_scope.

(** ** Exceptions and results *)

(** The Python exceptions the module can raise.  [ValueError] is what the
    specification calls a format error, [ResponseError] ([redis.exceptions])
    a store error.  [OtherError] stands for whatever an object that is not a
    Redis client chooses to raise. *)
Inductive exn : Type :=
| TypeError
| ValueError
| AttributeError
| UnicodeDecodeError
| ResponseError
| OtherError (name : string).

Inductive result (A : Type) : Type :=
| Ok (a : A)
| Raise (e : exn).

Arguments Ok {A} a.
Arguments Raise {A} e.

(** ** Python values *)

(** A [float], represented by its [repr] text (for instance [1.5], [1e+16],
    [-0.0], [inf], [nan]); the module never computes with floats. *)
Definition pyfloat : Type := string.

(** [Union[str, bytes, int, float]]: the values [Cache.store] accepts.
    A [str] is given by its UTF-8 bytes (so a [str] with a lone surrogate,
    which has no encoding, is not a value here), an [int] is a proper
    integer ([bool] is not meant). *)
Inductive Scalar : Type :=
| VText (s : string)
| VBytes (b : string)
| VInt (z : Z)
| VReal (r : pyfloat).

(** A Python value as the module sees it: [None] or a scalar. *)
Inductive pyval : Type :=
| PNone
| PVal (v : Scalar).

(** What [Redis.get] hands back: [None] or a [bytes] object. *)
Definition raw (o : option string) : pyval :=
  match o with
  | None => PNone
  | Some b => PVal (VBytes b)
  end.

(** ** Text of integers: [repr] and [int] *)

(** The canonical decimal text of an integer, whatever its size. *)
Definition repr_int (z : Z) : string := NilZero.string_of_int (Z.to_int z).

(** The characters [int] and [PyLong_FromString] skip around a literal:
    tab, line feed, vertical tab, form feed, carriage return and space. *)
Definition is_space (c : ascii) : bool :=
  let n := N_of_ascii c in
  (((9 <=? n) && (n <=? 13)) || (n =? 32))%N.

Fixpoint skip_spaces (s : string) : string :=
  match s with
  | String c r => if is_space c then skip_spaces r else s
  | EmptyString => s
  end.

Definition digit_val (c : ascii) : option Z :=
  let n := N_of_ascii c in
  if ((48 <=? n) && (n <=? 57))%N then Some (Z.of_N n - 48) else None.

(** The digit loop of [PyLong_FromString] in base 10: digits, with single
    underscores allowed between two digits.  It returns the value read and
    the unread rest. *)
Fixpoint scan_digits (s : string) (acc : Z) (prev_underscore : bool)
  : option (Z * string) :=
  match s with
  | EmptyString => if prev_underscore then None else Some (acc, EmptyString)
  | String c r =>
      match digit_val c with
      | Some d => scan_digits r (10 * acc + d) false
      | None =>
          if Ascii.eqb c "_"
          then (if prev_underscore then None else scan_digits r acc true)
          else if prev_underscore then None else Some (acc, s)
      end
  end.

Definition leading_digits (s : string) : option (Z * string) :=
  match s with
  | String c r =>
      match digit_val c with
      | Some d => scan_digits r d false
      | None => None
      end
  | EmptyString => None
  end.

(** The optional sign in front of the digits: whether it is a minus, and
    what follows it. *)
Definition split_sign (s : string) : bool * string :=
  match s with
  | String "+" r => (false, r)
  | String "-" r => (true, r)
  | _ => (false, s)
  end.

(** The integer a base-10 literal spells, whatever its length: optional
    blanks, an optional sign, the digits, optional blanks, and nothing
    else.  [None] when the bytes are no such literal. *)
Definition parse_literal (b : string) : option Z :=
  let '(negative, s1) := split_sign (skip_spaces b) in
  match leading_digits s1 with
  | Some (v, rest) =>
      match skip_spaces rest with
      | EmptyString => Some (if negative then - v else v)
      | String _ _ => None
      end
  | None => None
  end.

(** The interpreter's limit on conversions between [int] and text: 4300
    digits. *)
Definition MAX_STR_DIGITS : nat := 4300.

(** The least integer whose decimal text is over the limit. *)
Definition str_limit : Z := 10 ^ Z.of_nat MAX_STR_DIGITS.

(** The number of digit characters in some bytes (underscores, signs and
    blanks do not count, leading zeros do). *)
Fixpoint digit_count (s : string) : nat :=
  match s with
  | EmptyString => O
  | String c r =>
      match digit_val c with
      | Some _ => S (digit_count r)
      | None => digit_count r
      end
  end.

(** [int(b)] for a [bytes] object [b]: the integer the literal spells,
    provided it has no more than 4300 digits.  [None] is the [ValueError]
    case, for bytes that are no literal and for a literal over the limit
    alike.  Within the limit Python integers are unbounded. *)
Definition int_of_bytes (b : string) : option Z :=
  match parse_literal b with
  | Some z => if (digit_count b <=? MAX_STR_DIGITS)%nat then Some z else None
  | None => None
  end.

(** Whether [repr(z)] has at most 4300 digits. *)
Definition within_str_limit (z : Z) : bool := Z.abs z <? str_limit.

(** [repr(z)] and [str(z)] for an [int] as the interpreter computes them:
    [ValueError] over the limit. *)
Definition py_repr_int (z : Z) : result string :=
  if within_str_limit z then Ok (repr_int z) else Raise ValueError.

(** ** UTF-8 *)

Definition byte_in (lo hi : N) (c : ascii) : bool :=
  let n := N_of_ascii c in ((lo <=? n) && (n <=? hi))%N.

Definition continuation (c : ascii) : bool := byte_in 128 191 c.

(** Range of the second byte of a three-byte sequence, by lead byte
    (no overlong forms, no surrogates). *)
Definition second_of_three (lead c : ascii) : bool :=
  if byte_in 224 224 lead then byte_in 160 191 c
  else if byte_in 237 237 lead then byte_in 128 159 c
  else continuation c.

(** Range of the second byte of a four-byte sequence, by lead byte
    (no overlong forms, nothing above U+10FFFF). *)
Definition second_of_four (lead c : ascii) : bool :=
  if byte_in 240 240 lead then byte_in 144 191 c
  else if byte_in 244 244 lead then byte_in 128 143 c
  else continuation c.

(** Well-formed UTF-8, as the strict decoder of [bytes.decode] accepts it. *)
Fixpoint utf8_valid (s : string) : bool :=
  match s with
  | EmptyString => true
  | String c0 r0 =>
      if byte_in 0 127 c0 then utf8_valid r0
      else
        match r0 with
        | EmptyString => false
        | String c1 r1 =>
            if byte_in 194 223 c0 then continuation c1 && utf8_valid r1
            else
              match r1 with
              | EmptyString => false
              | String c2 r2 =>
                  if byte_in 224 239 c0
                  then second_of_three c0 c1 && continuation c2 && utf8_valid r2
                  else
                    match r2 with
                    | EmptyString => false
                    | String c3 r3 =>
                        byte_in 240 244 c0 && second_of_four c0 c1
                        && continuation c2 && continuation c3 && utf8_valid r3
                    end
              end
        end
  end.


(** [b.decode("utf-8")]: the text, or [UnicodeDecodeError]. *)
Definition decode_utf8 (b : string) : result string :=
  if utf8_valid b then Ok b else Raise UnicodeDecodeError.

(** ** Display forms *)

Definition hexdigits : list ascii :=
  list_ascii_of_string "0123456789abcdef".

Definition hex_digit (d : N) : ascii := nth (N.to_nat d) hexdigits "0"%char.

Definition dquote : ascii := ascii_of_N 34.
Definition squote : ascii := ascii_of_N 39.
Definition backslash : ascii := ascii_of_N 92.

Fixpoint contains (c : ascii) (s : string) : bool :=
  match s with
  | EmptyString => false
  | String d r => Ascii.eqb c d || contains c r
  end.

(** One byte of [repr(b)], given the quote character in use. *)
Definition escape_byte (quote c : ascii) : string :=
  let n := N_of_ascii c in
  if Ascii.eqb c quote || Ascii.eqb c backslash
  then String backslash (String c EmptyString)
  else if (n =? 9)%N then String backslash "t"
  else if (n =? 10)%N then String backslash "n"
  else if (n =? 13)%N then String backslash "r"
  else if ((n <? 32) || (127 <=? n))%N
  then String backslash
         (String "x" (String (hex_digit (n / 16)) (String (hex_digit (n mod 16)) EmptyString)))
  else String c EmptyString.

Fixpoint escape_bytes (quote : ascii) (s : string) : string :=
  match s with
  | EmptyString => EmptyString
  | String c r => escape_byte quote c +:+ escape_bytes quote r
  end.

(** [repr(b)] for a [bytes] object, which is also what [str(b)] and
    ['{}'.format(b)] give: [b'...'], with double quotes instead when the
    bytes hold a single quote and no double quote. *)
Definition repr_bytes (b : string) : string :=
  let quote := if contains squote b && negb (contains dquote b) then dquote else squote in
  String "b" (String quote (escape_bytes quote b +:+ String quote EmptyString)).

(** ** Identifiers: [uuid4] and [str] of a UUID *)

(** A UUID is its 128-bit integer value ([UUID.int]). *)
Record UUID : Type := mkUUID { uuid_int : N }.

(** [UUID(bytes=os.urandom(16), version=4)]: sixteen random bytes read as a
    big-endian integer, with the RFC 4122 variant and the version 4 forced
    into their bit fields. *)
Definition uuid4_of (random : N) : UUID :=
  let int0 := (random mod 2 ^ 128)%N in
  let int1 := N.ldiff int0 (N.shiftl 49152 48) in
  let int2 := N.lor int1 (N.shiftl 32768 48) in
  let int3 := N.ldiff int2 (N.shiftl 61440 64) in
  mkUUID (N.lor int3 (N.shiftl 4 76)).

(** The last [width] hexadecimal digits of [n], most significant first:
    ['%032x' % n] for [width = 32] and [n < 2 ^ 128]. *)
Fixpoint hex_fixed (width : nat) (n : N) : list ascii :=
  match width with
  | O => []
  | S k => hex_fixed k (n / 16)%N ++ [hex_digit (n mod 16)%N]
  end.

(** [str(u)]: the 32 digits cut as 8-4-4-4-12 and joined by hyphens. *)
Definition str_uuid (u : UUID) : string :=
  let hex := hex_fixed 32 (uuid_int u) in
  string_of_list_ascii
    (take 8 hex ++ "-"%char :: take 4 (drop 8 hex) ++ "-"%char
       :: take 4 (drop 12 hex) ++ "-"%char :: take 4 (drop 16 hex)
       ++ "-"%char :: drop 20 hex).

(** ** The Redis server *)

(** What a key holds: a string, a list, or a value of another Redis type
    (set, hash, sorted set, stream), on which every command the module
    uses answers WRONGTYPE. *)
Inductive rvalue : Type :=
| RStr (b : string)
| RList (l : list string)
| ROther.

(** The commands the module sends, as the server receives them. *)
Inductive command : Type :=
| FLUSHDB (asynchronous : bool)
| INCR (key : string)
| SET (key value : string)
| GET (key : string)
| EXISTS (key : string)
| RPUSH (key value : string)
| LRANGE (key : string) (start stop : Z).

Definition INT64_MAX : Z := 9223372036854775807.
Definition INT64_MIN : Z := -9223372036854775808.

(** The server's [string2ll]: it accepts exactly the canonical decimal text
    of a 64-bit signed integer (no blanks, no plus sign, no leading zero,
    no minus zero). *)
Definition string2ll (b : string) : option Z :=
  match parse_literal b with
  | Some z =>
      if String.eqb (repr_int z) b && (INT64_MIN <=? z) && (z <=? INT64_MAX)
      then Some z else None
  | None => None
  end.

(** INCR: an absent key counts as 0; the new value is stored as decimal
    text; a value that is not a 64-bit integer, an overflow or a key of
    another type is an error and changes nothing. *)
Definition server_incr (key : string) (d : gmap string rvalue)
  : result Z * gmap string rvalue :=
  match d !! key with
  | None => (Ok 1, <[key := RStr (repr_int 1)]> d)
  | Some (RStr b) =>
      match string2ll b with
      | Some n =>
          if n <? INT64_MAX
          then (Ok (n + 1), <[key := RStr (repr_int (n + 1))]> d)
          else (Raise ResponseError, d)
      | None => (Raise ResponseError, d)
      end
  | Some _ => (Raise ResponseError, d)
  end.

(** SET overwrites whatever the key held. *)
Definition server_set (key value : string) (d : gmap string rvalue)
  : result unit * gmap string rvalue :=
  (Ok tt, <[key := RStr value]> d).

Definition server_get (key : string) (d : gmap string rvalue)
  : result (option string) * gmap string rvalue :=
  match d !! key with
  | None => (Ok None, d)
  | Some (RStr b) => (Ok (Some b), d)
  | Some _ => (Raise ResponseError, d)
  end.

Definition server_exists (key : string) (d : gmap string rvalue)
  : result Z * gmap string rvalue :=
  match d !! key with
  | None => (Ok 0, d)
  | Some _ => (Ok 1, d)
  end.

(** RPUSH appends at the tail and creates the list when the key is absent;
    it answers the new length. *)
Definition server_rpush (key value : string) (d : gmap string rvalue)
  : result Z * gmap string rvalue :=
  match d !! key with
  | None => (Ok 1, <[key := RList [value]]> d)
  | Some (RList l) =>
      (Ok (Z.of_nat (length l) + 1), <[key := RList (l ++ [value])]> d)
  | Some _ => (Raise ResponseError, d)
  end.

(** The index arithmetic of LRANGE: negative indices count from the end,
    both ends are inclusive, out-of-range ends are clamped. *)
Definition lrange (l : list string) (start stop : Z) : list string :=
  let llen := Z.of_nat (length l) in
  let start1 := if start <? 0 then llen + start else start in
  let stop1 := if stop <? 0 then llen + stop else stop in
  let start2 := if start1 <? 0 then 0 else start1 in
  if (stop1 <? start2) || (llen <=? start2) then []
  else
    let stop2 := if llen <=? stop1 then llen - 1 else stop1 in
    take (Z.to_nat (stop2 - start2 + 1)) (drop (Z.to_nat start2) l).

Definition server_lrange (key : string) (start stop : Z) (d : gmap string rvalue)
  : result (list string) * gmap string rvalue :=
  match d !! key with
  | None => (Ok [], d)
  | Some (RList l) => (Ok (lrange l start stop), d)
  | Some _ => (Raise ResponseError, d)
  end.

(** FLUSHDB empties the keyspace.  With ASYNC the server detaches the old
    keyspace at once and frees it in the background; the keys are gone for
    every later command either way. *)
Definition server_flushdb (d : gmap string rvalue)
  : result unit * gmap string rvalue :=
  (Ok tt, ∅).

(** ** The world a call runs in *)

(** The database of the server, the commands it has received so far, the
    lines printed on standard output, and the source of random bytes
    ([urandom k] is the [k]-th block of sixteen bytes the operating system
    will hand out, [draws] the number of blocks handed out so far). *)
Record World : Type := mkWorld {
  db : gmap string rvalue;
  cmds : list command;
  stdout : list string;
  urandom : nat -> N;
  draws : nat
}.

(** A computation: it may change the world and either returns a value or
    raises; what it did before raising stays done. *)
Definition M (A : Type) : Type := World -> result A * World.

Definition ret {A : Type} (a : A) : M A := fun w => (Ok a, w).

Definition raise {A : Type} (e : exn) : M A := fun w => (Raise e, w).

Definition bind {A B : Type} (m : M A) (f : A -> M B) : M B :=
  fun w =>
    match m w with
    | (Ok a, w') => f a w'
    | (Raise e, w') => (Raise e, w')
    end.

Definition lift {A : Type} (r : result A) : M A := fun w => (r, w).

Declare Scope py_scope.
Delimit Scope py_scope with py.
Notation "x <- c1 ;; c2" := (bind c1 (fun x => c2))
  (at level 100, c1 at next level, right associativity) : py_scope.
Notation "c1 ;; c2" := (bind c1 (fun _ => c2))
  (at level 100, right associativity) : py_scope.

(** One round trip to the server: the command is logged, then executed. *)
Definition execute_command {A : Type} (c : command)
  (run : gmap string rvalue -> result A * gmap string rvalue) : M A :=
  fun w =>
    let '(r, d) := run (db w) in
    (r, mkWorld d (cmds w ++ [c]) (stdout w) (urandom w) (draws w)).

(** [print(line)]. *)
Definition print (line : string) : M unit :=
  fun w => (Ok tt, mkWorld (db w) (cmds w) (stdout w ++ [line]) (urandom w) (draws w)).

(** [uuid4()]: consumes one block of random bytes. *)
Definition uuid4 : M UUID :=
  fun w =>
    (Ok (uuid4_of (urandom w (draws w))),
     mkWorld (db w) (cmds w) (stdout w) (urandom w) (S (draws w))).

(** ** The client library: methods of a [Redis] object *)

(** How the client turns a value into bytes before sending it: [bytes] as
    they are, [str] encoded as UTF-8, [int] and [float] through [repr],
    which raises [ValueError] for an [int] over the digit limit. *)
Definition encode (v : Scalar) : result string :=
  match v with
  | VText s => Ok s
  | VBytes b => Ok b
  | VInt z => py_repr_int z
  | VReal r => Ok r
  end.

(** [flushdb(asynchronous=False)]: the flag selects FLUSHDB ASYNC. *)
Definition redis_flushdb (asynchronous : bool) : M unit :=
  execute_command (FLUSHDB asynchronous) server_flushdb.

Definition redis_incr (name : string) : M Z :=
  execute_command (INCR name) (server_incr name).

(** [set(name, value)]; a value that cannot be encoded makes the client
    raise before anything is sent. *)
Definition redis_set (name : string) (value : Scalar) : M unit :=
  match encode value with
  | Ok bytes => execute_command (SET name bytes) (server_set name bytes)
  | Raise e => raise e
  end.

Definition redis_get (name : string) : M (option string) :=
  execute_command (GET name) (server_get name).

Definition redis_exists (name : string) : M Z :=
  execute_command (EXISTS name) (server_exists name).

(** [rpush(name, value)]; [None] cannot be encoded and is refused by the
    client, as a [DataError], before anything is sent; so is, with the
    [ValueError] of [repr], an [int] over the digit limit. *)
Definition redis_rpush (name : string) (value : pyval) : M Z :=
  match value with
  | PNone => raise (OtherError "DataError")
  | PVal v =>
      match encode v with
      | Ok bytes => execute_command (RPUSH name bytes) (server_rpush name bytes)
      | Raise e => raise e
      end
  end.

Definition redis_lrange (name : string) (start stop : Z) : M (list string) :=
  execute_command (LRANGE name start stop) (server_lrange name start stop).

(** ** Objects *)

(** An object that is not a [Redis] instance, seen through the two
    attributes the module may look up on it: [set] and [get], each absent
    ([None]) or a callable that returns or raises. *)
Record foreign : Type := mkForeign {
  foreign_set : option (string -> Scalar -> result unit);
  foreign_get : option (string -> result (option string))
}.

(** The value of a [_redis] attribute: an instance of [Redis] connected to
    the server, or anything else ([None] included, as an object with no
    attribute at all). *)
Inductive handle : Type :=
| Redis
| NotRedis (o : foreign).

(** [isinstance(h, Redis)]. *)
Definition isinstance_Redis (h : handle) : bool :=
  match h with
  | Redis => true
  | NotRedis _ => false
  end.

(** An instance of [Cache]: its one attribute. *)
Record Cache : Type := mkCache { _redis : handle }.

(** [h.set(name, value)]. *)
Definition handle_set (h : handle) (name : string) (value : Scalar) : M unit :=
  match h with
  | Redis => redis_set name value
  | NotRedis o =>
      match foreign_set o with
      | Some f => lift (f name value)
      | None => raise AttributeError
      end
  end.

(** [h.get(name)]. *)
Definition handle_get (h : handle) (name : string) : M (option string) :=
  match h with
  | Redis => redis_get name
  | NotRedis o =>
      match foreign_get o with
      | Some f => lift (f name)
      | None => raise AttributeError
      end
  end.

(** A method of [Cache] before it is bound: its [__qualname__] and what a
    call [method(self, *args, **kwargs)] does. *)
Record method : Type := mkMethod {
  __qualname__ : string;
  call : Cache -> list Scalar -> list (string * Scalar) -> M pyval
}.

(** What [replay] may be handed: [None], a plain function (no [__self__]),
    or a method bound to an object, which is a [Cache] or some object
    without a [_redis] attribute. *)
Inductive pyobject : Type :=
| Instance (c : Cache)
| Plain.

Inductive callable : Type :=
| NoneRef
| Function (qualname : string)
| BoundMethod (self : pyobject) (qualname : string).

(** [getattr(o, '_redis', None)], [None] being no handle. *)
Definition getattr_redis (o : pyobject) : option handle :=
  match o with
  | Instance c => Some (_redis c)
  | Plain => None
  end.

(** ** The module *)

Open Scope py_scope.

(** [Cache.__init__]: a client is created and the database flushed; the
    positional [True] is the [asynchronous] parameter of [flushdb]. *)
Definition Cache_init : M Cache :=
  _ <- redis_flushdb true ;;
  ret (mkCache Redis).

(** Binding of the arguments of a call to [def store(self, data)]. *)
Definition bind_data (args : list Scalar) (kwargs : list (string * Scalar))
  : result Scalar :=
  match args, kwargs with
  | [data], [] => Ok data
  | [], [(name, data)] => if String.eqb name "data" then Ok data else Raise TypeError
  | _, _ => Raise TypeError
  end.

(** The undecorated [Cache.store]. *)
Definition store_method : method :=
  mkMethod "Cache.store"
    (fun self args kwargs =>
       data <- lift (bind_data args kwargs) ;;
       u <- uuid4 ;;
       let data_key := str_uuid u in
       _ <- handle_set (_redis self) data_key data ;;
       ret (PVal (VText data_key))).

(** Whether the keywords of a call name [self].  A wrapper
    [invoker(self, *args, **kwargs)] already receives the instance as
    [self], so such a call is refused with [TypeError] before the body of
    the wrapper runs. *)
Definition binds_self (kwargs : list (string * Scalar)) : bool :=
  existsb (fun p => String.eqb (fst p) "self") kwargs.

(** [count_calls]: the wrapper keeps the name of the method it wraps. *)
Definition count_calls (m : method) : method :=
  mkMethod (__qualname__ m)
    (fun self args kwargs =>
       if binds_self kwargs then raise TypeError
       else
         _ <- (if isinstance_Redis (_redis self)
               then _ <- redis_incr (__qualname__ m) ;; ret tt
               else ret tt) ;;
         call m self args kwargs).

(** [Cache.get]. *)
Definition get (self : Cache) (key : string)
  (fn : option (option string -> result pyval)) : M pyval :=
  data <- handle_get (_redis self) key ;;
  match fn with
  | Some f => lift (f data)
  | None => ret (raw data)
  end.

(** [lambda x: x.decode('utf-8')]; [None] has no [decode]. *)
Definition decode_lambda (x : option string) : result pyval :=
  match x with
  | None => Raise AttributeError
  | Some b =>
      match decode_utf8 b with
      | Ok s => Ok (PVal (VText s))
      | Raise e => Raise e
      end
  end.

(** [int(x)] for what [Redis.get] returned; [int(None)] is a [TypeError]. *)
Definition py_int (x : option string) : result Z :=
  match x with
  | None => Raise TypeError
  | Some b =>
      match int_of_bytes b with
      | Some z => Ok z
      | None => Raise ValueError
      end
  end.

(** [lambda x: int(x)]. *)
Definition int_lambda (x : option string) : result pyval :=
  match py_int x with
  | Ok z => Ok (PVal (VInt z))
  | Raise e => Raise e
  end.

Definition get_str (self : Cache) (key : string) : M pyval :=
  get self key (Some decode_lambda).

Definition get_int (self : Cache) (key : string) : M pyval :=
  get self key (Some int_lambda).

(** The two lines [replay] prints. *)
Definition header_line (fxn_name : string) (fxn_call_count : Z) : string :=
  fxn_name +:+ " was called " +:+ repr_int fxn_call_count +:+ " times:".

(** ['{} was called {} times:'.format(fxn_name, fxn_call_count)]: the
    header line, or the [ValueError] of a count over the digit limit. *)
Definition format_header (fxn_name : string) (fxn_call_count : Z) : result string :=
  match py_repr_int fxn_call_count with
  | Ok text => Ok (fxn_name +:+ " was called " +:+ text +:+ " times:")
  | Raise e => Raise e
  end.

Definition history_line (fxn_name fxn_input fxn_output : string) : string :=
  fxn_name +:+ "(*" +:+ fxn_input +:+ ") -> " +:+ repr_bytes fxn_output.

(** The loop of [replay] over [zip(fxn_inputs, fxn_outputs)]. *)
Fixpoint replay_loop (fxn_name : string) (pairs : list (string * string)) : M unit :=
  match pairs with
  | [] => ret tt
  | (fxn_input, fxn_output) :: rest =>
      text <- lift (decode_utf8 fxn_input) ;;
      _ <- print (history_line fxn_name text fxn_output) ;;
      replay_loop fxn_name rest
  end.

(** [replay]. *)
Definition replay (fn : callable) : M unit :=
  match fn with
  | NoneRef => ret tt
  | Function _ => ret tt
  | BoundMethod self fxn_name =>
      match getattr_redis self with
      | Some Redis =>
          let in_key := fxn_name +:+ ":inputs" in
          let out_key := fxn_name +:+ ":outputs" in
          present <- redis_exists fxn_name ;;
          fxn_call_count <-
            (if present =? 0 then ret 0
             else
               value <- redis_get fxn_name ;;
               lift (py_int value)) ;;
          header <- lift (format_header fxn_name fxn_call_count) ;;
          _ <- print header ;;
          fxn_inputs <- redis_lrange in_key 0 (-1) ;;
          fxn_outputs <- redis_lrange out_key 0 (-1) ;;
          replay_loop fxn_name (zip fxn_inputs fxn_outputs)
      | _ => ret tt
      end
  end.

Section Display.

(** [repr(s)] for a [str]: quotes and escapes, chosen by the Unicode
    category of each character.  It is left open here; every result below
    holds whatever it is. *)
Variable repr_str : string -> string.

(** [repr(v)] for an argument. *)
Definition repr_scalar (v : Scalar) : result string :=
  match v with
  | VText s => Ok (repr_str s)
  | VBytes b => Ok (repr_bytes b)
  | VInt z => py_repr_int z
  | VReal r => Ok r
  end.

(** The [repr] of each item in turn; the first one that raises decides. *)
Fixpoint repr_each (l : list Scalar) : result (list string) :=
  match l with
  | [] => Ok []
  | v :: r =>
      match repr_scalar v with
      | Ok text =>
          match repr_each r with
          | Ok texts => Ok (text :: texts)
          | Raise e => Raise e
          end
      | Raise e => Raise e
      end
  end.

Fixpoint join_texts (l : list string) : string :=
  match l with
  | [] => EmptyString
  | [t] => t
  | t :: r => t +:+ ", " +:+ join_texts r
  end.

(** The text of a tuple, given the [repr] of its items: [()], [(x,)],
    [(x, y)] and so on. *)
Definition tuple_text (items : list string) : string :=
  match items with
  | [t] => "(" +:+ t +:+ ",)"
  | _ => "(" +:+ join_texts items +:+ ")"
  end.

(** [str(args)] for the tuple of positional arguments; [ValueError] when
    one of them is an [int] over the digit limit. *)
Definition str_args (args : list Scalar) : result string :=
  match repr_each args with
  | Ok items => Ok (tuple_text items)
  | Raise e => Raise e
  end.

(** [call_history]: the wrapped method runs first, then both pushes. *)
Definition call_history (m : method) : method :=
  mkMethod (__qualname__ m)
    (fun self args kwargs =>
       if binds_self kwargs then raise TypeError
       else
         let input_key := __qualname__ m +:+ ":inputs" in
         let output_key := __qualname__ m +:+ ":outputs" in
         output <- call m self args kwargs ;;
         _ <- (if isinstance_Redis (_redis self)
               then
                 input <- lift (str_args args) ;;
                 _ <- redis_rpush input_key (PVal (VText input)) ;;
                 _ <- redis_rpush output_key output ;;
                 ret tt
               else ret tt) ;;
         ret output).

(** [Cache.store], as decorated: [count_calls] outermost. *)
Definition store_decorated : method := count_calls (call_history store_method).

(** [self.store(data)]. *)
Definition store (self : Cache) (data : Scalar) : M pyval :=
  call store_decorated self [data] [].

(** [store] called on each value in turn; the identifiers returned, in
    call order. *)
Fixpoint store_each (self : Cache) (values : list Scalar) : M (list pyval) :=
  match values with
  | [] => ret []
  | v :: rest =>
      k <- store self v ;;
      ks <- store_each self rest ;;
      ret (k :: ks)
  end.

End Display.

(** ** Reading the instrumentation out of a database *)

(** The counter under [name] as INCR sees it: 0 when the key is absent,
    nothing when the key does not hold a 64-bit integer. *)
Definition counter_value (d : gmap string rvalue) (name : string) : option Z :=
  match d !! name with
  | None => Some 0
  | Some (RStr b) => string2ll b
  | Some _ => None
  end.

(** The list under [key] as RPUSH and LRANGE see it: empty when the key is
    absent, nothing when the key holds something else. *)
Definition list_value (d : gmap string rvalue) (key : string) : option (list string) :=
  match d !! key with
  | None => Some []
  | Some (RList l) => Some l
  | Some _ => None
  end.

(** The count [replay] computes from what the counter key holds: 0 when
    the key is absent, [int] of its bytes otherwise. *)
Definition read_count (held : option rvalue) : result Z :=
  match held with
  | None => Ok 0
  | Some (RStr b) => py_int (Some b)
  | Some _ => Raise ResponseError
  end.

(** The database lets one more call of [store] be recorded: the counter
    can be incremented and both histories can be appended to. *)
Definition store_ready (d : gmap string rvalue) : bool :=
  match counter_value d "Cache.store" with
  | Some n => n <? INT64_MAX
  | None => false
  end
  && match list_value d "Cache.store:inputs" with Some _ => true | None => false end
  && match list_value d "Cache.store:outputs" with Some _ => true | None => false end.

(** The identifier the next call of [uuid4] yields in [w], as text. *)
Definition next_key (w : World) : string :=
  str_uuid (uuid4_of (urandom w (draws w))).

(** The identifiers the next [n] calls of [uuid4] yield in [w]. *)
Definition next_keys (w : World) (n : nat) : list string :=
  map (fun i => str_uuid (uuid4_of (urandom w (draws w + i)%nat))) (seq 0 n).

(** The arguments [replay] acts on, in the words of its contract. *)
Definition is_bound_reference (fn : callable) : bool :=
  match fn with
  | BoundMethod _ _ => true
  | _ => false
  end.

Definition has_store_connection (fn : callable) : bool :=
  match fn with
  | BoundMethod (Instance c) _ => isinstance_Redis (_redis c)
  | _ => false
  end.

(** The commands of one recorded call of [store], in two orders: the input
    pushed before the write, and the write before both pushes. *)
Definition commands_input_first (key value input : string) : list command :=
  [INCR "Cache.store"; RPUSH "Cache.store:inputs" input;
   SET key value; RPUSH "Cache.store:outputs" key].

Definition commands_write_first (key value input : string) : list command :=
  [INCR "Cache.store"; SET key value;
   RPUSH "Cache.store:inputs" input; RPUSH "Cache.store:outputs" key].

(** A value the client can encode: anything but an [int] over the digit
    limit. *)
Definition storable (v : Scalar) : bool :=
  match encode v with
  | Ok _ => true
  | Raise _ => false
  end.

(** ** Base-10 literals, as a grammar *)

(** Bytes made of blanks only. *)
Fixpoint blanks (s : string) : bool :=
  match s with
  | EmptyString => true
  | String c r => is_space c && blanks r
  end.

(** A run of digits with single underscores allowed between two digits,
    and the digits it holds, most significant first. *)
Inductive digit_run : string -> list Z -> Prop :=
| run_last (c : ascii) (d : Z) :
    digit_val c = Some d -> digit_run (String c EmptyString) [d]
| run_next (c : ascii) (d : Z) (s : string) (ds : list Z) :
    digit_val c = Some d -> digit_run s ds -> digit_run (String c s) (d :: ds)
| run_underscore (c : ascii) (d : Z) (s : string) (ds : list Z) :
    digit_val c = Some d -> digit_run s ds ->
    digit_run (String c (String "_" s)) (d :: ds).

(** The number a list of digits denotes in base 10, by place value. *)
Fixpoint place_value (ds : list Z) : Z :=
  match ds with
  | [] => 0
  | d :: r => d * 10 ^ Z.of_nat (length r) + place_value r
  end.

(** The sign a literal may start with, and what it does to the value. *)
Inductive signed : string -> Z -> Z -> Prop :=
| signed_none (v : Z) : signed EmptyString v v
| signed_plus (v : Z) : signed "+" v v
| signed_minus (v : Z) : signed "-" v (- v).

(** [base10_literal b z]: the bytes [b] are a base-10 integer literal for
    [z]: blanks, an optional sign, a run of digits, blanks. *)
Inductive base10_literal : string -> Z -> Prop :=
| literal (lead sign run trail : string) (ds : list Z) (z : Z) :
    blanks lead = true ->
    signed sign (place_value ds) z ->
    digit_run run ds ->
    blanks trail = true ->
    base10_literal (lead +:+ sign +:+ run +:+ trail) z.

(** The bytes made of [n] times the digit 1. *)
Fixpoint ones (n : nat) : string :=
  match n with
  | O => EmptyString
  | S k => String "1" (ones k)
  end.

(** ** Sample data *)

(** A world with an empty database, nothing printed and a fixed source of
    random bytes. *)
Definition world0 : World :=
  mkWorld ∅ [] [] (fun k => (N.of_nat k * 1000003 + 77)%N) 0.

(** [repr] of a [str] made of letters and digits: the text in single
    quotes. *)
Definition quoted (s : string) : string :=
  String squote (s +:+ String squote EmptyString).

Definition cache0 : Cache := mkCache Redis.

(** An object with a working [set] and no [get], standing in for a handle
    that is not a [Redis] instance. *)
Definition dummy : foreign :=
  mkForeign (Some (fun _ _ => Ok tt)) None.

(** A database whose counter disagrees with its histories, with one more
    key that holds text. *)
Definition skewed : World :=
  mkWorld
    (<["Cache.store" := RStr " 5 "]>
       (<["Cache.store:inputs" := RList ["(1,)"; "(2,)"; "(3,)"]]>
          (<["Cache.store:outputs" := RList ["a"; "b"]]>
             (<["greeting" := RStr "foo"]> ∅))))
    [] [] (fun _ => 0%N) 0.

(** A database whose counter key holds 4301 digits, one more than [int]
    accepts. *)
Definition overlong : World :=
  mkWorld (<["Cache.store" := RStr (ones (S MAX_STR_DIGITS))]> ∅)
    [] [] (fun _ => 0%N) 0.

(** ** Further vocabulary *)

(** The commands that only read the database. *)
Definition reads_only (c : command) : bool :=
  match c with
  | GET _ | EXISTS _ | LRANGE _ _ _ => true
  | _ => false
  end.

(** A computation that leaves the database and the source of random bytes
    alone, sends only reading commands and only adds to what was printed,
    whether it returns or raises. *)
Definition quiet {A : Type} (m : M A) : Prop :=
  forall w : World,
    db (snd (m w)) = db w
    /\ urandom (snd (m w)) = urandom w
    /\ draws (snd (m w)) = draws w
    /\ (exists cs, cmds (snd (m w)) = cmds w ++ cs /\ forallb reads_only cs = true)
    /\ (exists lines, stdout (snd (m w)) = stdout w ++ lines).

(** The world once the server has executed INCR on a counter under [name]
    that read [n]. *)
Definition after_incr (name : string) (n : Z) (w : World) : World :=
  mkWorld (<[name := RStr (repr_int (n + 1))]> (db w)) (cmds w ++ [INCR name])
    (stdout w) (urandom w) (draws w).

(** The world once the server has refused a command [c]. *)
Definition after_refusal (c : command) (w : World) : World :=
  mkWorld (db w) (cmds w ++ [c]) (stdout w) (urandom w) (draws w).

(** The counter of [Cache.store] and its two histories agree: as many
    calls counted as inputs and as outputs recorded. *)
Definition balanced (d : gmap string rvalue) : bool :=
  match counter_value d "Cache.store",
        list_value d "Cache.store:inputs",
        list_value d "Cache.store:outputs" with
  | Some n, Some ins, Some outs =>
      (n =? Z.of_nat (length ins)) && (length ins =? length outs)%nat
  | _, _, _ => false
  end.

(** A method that returns [None], and one that raises. *)
Definition silent : method := mkMethod "Cache.touch" (fun _ _ _ => ret PNone).

Definition failing : method :=
  mkMethod "Cache.touch" (fun _ _ _ => raise (OtherError "RuntimeError")).

(** A world whose source of random bytes repeats itself. *)
Definition repeating : World := mkWorld ∅ [] [] (fun _ => 5%N) 0.

(** A byte that is not UTF-8 on its own. *)
Definition stray : string := String (ascii_of_N 255) EmptyString.

(** A database after two recorded calls, with one more key. *)
Definition stocked : World :=
  mkWorld
    (<["Cache.store" := RStr "2"]>
       (<["Cache.store:inputs" := RList ["(1,)"; "(2,)"]]>
          (<["Cache.store:outputs" := RList ["a"; "b"]]>
             (<["greeting" := RStr "foo"]> ∅))))
    [] [] (fun k => N.of_nat k) 0.

(** A database that was tampered with: an input that is not text, a
    counter that is not a number, a history that is not a list. *)
Definition damaged : World :=
  mkWorld
    (<["Cache.store" := RStr "2"]>
       (<["Cache.store:inputs" := RList ["(1,)"; stray]]>
          (<["Cache.store:outputs" := RList ["a"; "b"]]>
             (<["blob" := RStr stray]>
                (<["Cache.get" := RStr "many"]>
                   (<["Cache.get_str:inputs" := RStr "x"]> ∅))))))
    [] [] (fun k => N.of_nat k) 0.

(** * Properties *)

(** ** Decimal text *)

Lemma scan_digits_uint_pos (d : Decimal.uint) (acc : positive) :
  scan_digits (NilEmpty.string_of_uint d) (Z.pos acc) false
  = Some (Z.pos (Pos.of_uint_acc d acc), EmptyString).
Proof.
  revert acc.
  induction d as [| d IH | d IH | d IH | d IH | d IH | d IH | d IH | d IH | d IH | d IH];
    intros acc; [reflexivity | ..];
    cbn [NilEmpty.string_of_uint scan_digits Pos.of_uint_acc];
    cbv [digit_val]; cbn -[Z.mul Z.add Pos.mul Pos.add scan_digits];
    try (rewrite <- IH; f_equal; lia).
Qed.

Lemma scan_digits_uint_zero (d : Decimal.uint) :
  scan_digits (NilEmpty.string_of_uint d) 0 false
  = Some (Z.of_N (Pos.of_uint d), EmptyString).
Proof.
  induction d as [| d IH | d IH | d IH | d IH | d IH | d IH | d IH | d IH | d IH | d IH];
    [reflexivity | ..];
    cbn [NilEmpty.string_of_uint scan_digits Pos.of_uint];
    cbv [digit_val]; cbn -[Z.mul Z.add Pos.mul Pos.add scan_digits];
    try exact IH;
    apply (scan_digits_uint_pos d).
Qed.

Lemma leading_digits_uint (d : Decimal.uint) :
  d <> Decimal.Nil ->
  leading_digits (NilEmpty.string_of_uint d)
  = Some (Z.of_N (Pos.of_uint d), EmptyString).
Proof.
  destruct d as [| d | d | d | d | d | d | d | d | d | d]; intros Hd;
    [contradiction | ..];
    cbn [NilEmpty.string_of_uint leading_digits Pos.of_uint];
    cbv [digit_val]; cbn -[Z.mul Z.add scan_digits];
    first [apply scan_digits_uint_zero | apply (scan_digits_uint_pos d)].
Qed.

(** The text of a positive number starts with a digit: no blank to skip
    and no sign to read. *)
Lemma uint_text_head (d : Decimal.uint) :
  d <> Decimal.Nil ->
  exists c r, NilEmpty.string_of_uint d = String c r
              /\ is_space c = false /\ c <> "+"%char /\ c <> "-"%char.
Proof.
  destruct d as [| d | d | d | d | d | d | d | d | d | d]; intros Hd;
    [contradiction | ..];
    (eexists; eexists; split; [reflexivity | split; [reflexivity | split; discriminate]]).
Qed.

Lemma parse_literal_unsigned (s : string) (v : Z) :
  (exists c r, s = String c r /\ is_space c = false /\ c <> "+"%char /\ c <> "-"%char) ->
  leading_digits s = Some (v, EmptyString) ->
  parse_literal s = Some v /\ parse_literal (String "-" s) = Some (- v).
Proof.
  intros (c & r & -> & Hsp & Hplus & Hminus) Hlead.
  unfold parse_literal.
  split.
  - cbn [skip_spaces]. rewrite Hsp.
    assert (Hs : split_sign (String c r) = (false, String c r)).
    { unfold split_sign.
      destruct c as [[] [] [] [] [] [] [] []]; try reflexivity; congruence. }
    rewrite Hs, Hlead. reflexivity.
  - cbn [skip_spaces].
    replace (is_space "-") with false by reflexivity.
    cbn [split_sign]. rewrite Hlead. reflexivity.
Qed.

(** The decimal text of an integer is a literal for it. *)
Lemma parse_literal_repr_int (z : Z) : parse_literal (repr_int z) = Some z.
Proof.
  destruct z as [| p | p]; [reflexivity | ..].
  - unfold repr_int. cbn [Z.to_int NilZero.string_of_int].
    pose proof (Unsigned.to_uint_nonnil p) as Hnil.
    assert (Htext : NilZero.string_of_uint (Pos.to_uint p)
                    = NilEmpty.string_of_uint (Pos.to_uint p)).
    { destruct (Pos.to_uint p); [contradiction | reflexivity ..]. }
    rewrite Htext.
    apply (parse_literal_unsigned _ (Z.pos p)).
    + apply uint_text_head, Hnil.
    + rewrite (leading_digits_uint _ Hnil), Unsigned.of_to. reflexivity.
  - unfold repr_int. cbn [Z.to_int NilZero.string_of_int].
    pose proof (Unsigned.to_uint_nonnil p) as Hnil.
    assert (Htext : NilZero.string_of_uint (Pos.to_uint p)
                    = NilEmpty.string_of_uint (Pos.to_uint p)).
    { destruct (Pos.to_uint p); [contradiction | reflexivity ..]. }
    rewrite Htext.
    change (Z.neg p) with (- Z.pos p).
    apply (parse_literal_unsigned _ (Z.pos p)).
    + apply uint_text_head, Hnil.
    + rewrite (leading_digits_uint _ Hnil), Unsigned.of_to. reflexivity.
Qed.

Lemma string2ll_repr_int (z : Z) :
  INT64_MIN <= z <= INT64_MAX -> string2ll (repr_int z) = Some z.
Proof.
  intros [Hlo Hhi]. unfold string2ll.
  rewrite parse_literal_repr_int, String.eqb_refl.
  apply Z.leb_le in Hlo, Hhi. rewrite Hlo, Hhi. reflexivity.
Qed.

Lemma string2ll_canonical (b : string) (z : Z) :
  string2ll b = Some z -> b = repr_int z /\ INT64_MIN <= z <= INT64_MAX.
Proof.
  unfold string2ll. destruct (parse_literal b) as [v |]; [| discriminate].
  destruct (String.eqb (repr_int v) b) eqn:Heq; [| discriminate].
  destruct (INT64_MIN <=? v) eqn:Hlo; [| discriminate].
  destruct (v <=? INT64_MAX) eqn:Hhi; [| discriminate].
  intros [= <-]. apply String.eqb_eq in Heq. apply Z.leb_le in Hlo, Hhi.
  auto.
Qed.

(** ** The digit limit *)

Lemma digit_count_uint_acc (l : Decimal.uint) (acc : positive) :
  Z.pos acc * 10 ^ Z.of_nat (digit_count (NilEmpty.string_of_uint l))
  <= Z.pos (Pos.of_uint_acc l acc).
Proof.
  revert acc.
  induction l as [| l IH | l IH | l IH | l IH | l IH | l IH | l IH | l IH | l IH | l IH];
    intros acc;
    [cbn [NilEmpty.string_of_uint digit_count Pos.of_uint_acc Z.of_nat];
     rewrite Z.pow_0_r; lia | ..];
    cbn [NilEmpty.string_of_uint Pos.of_uint_acc];
    match goal with
    | |- context [digit_count (String ?c ?r)] =>
        change (digit_count (String c r)) with (S (digit_count r))
    end;
    rewrite Nat2Z.inj_succ, Z.pow_succ_r by lia;
    match goal with
    | |- _ <= Z.pos (Pos.of_uint_acc l ?a) => specialize (IH a)
    end;
    pose proof (Z.pow_nonneg 10 (Z.of_nat (digit_count (NilEmpty.string_of_uint l)))
                  ltac:(lia));
    nia.
Qed.

(** A positive number below [10 ^ k] is written with at most [k] digits. *)
Lemma digit_count_pos (p : positive) (k : nat) :
  Z.pos p < 10 ^ Z.of_nat k ->
  (digit_count (NilEmpty.string_of_uint (Pos.to_uint p)) <= k)%nat.
Proof.
  intros Hp.
  pose proof (Unsigned.of_to p) as Hof.
  pose proof (Unsigned.to_of (Pos.to_uint p)) as Hnorm.
  rewrite Hof in Hnorm. cbn [N.to_uint] in Hnorm.
  pose proof (Unsigned.to_uint_nonzero p) as Hnz.
  assert (Hhead : forall l, Pos.to_uint p <> Decimal.D0 l).
  { intros l Heq. rewrite Heq in Hnorm. unfold Decimal.unorm in Hnorm.
    rewrite nzhead_D0 in Hnorm.
    destruct (Decimal.nzhead l) eqn:Hl; cbn iota in Hnorm;
      try discriminate Hnorm;
      try exact (nzhead_nonzero _ _ Hl).
    injection Hnorm as ->. exact (Hnz Heq). }
  assert (Hlow : forall l acc,
             Pos.of_uint (Pos.to_uint p) = N.pos (Pos.of_uint_acc l acc) ->
             10 ^ Z.of_nat (digit_count (NilEmpty.string_of_uint l)) <= Z.pos p).
  { intros l acc Heq. rewrite Hof in Heq. injection Heq as ->.
    pose proof (digit_count_uint_acc l acc).
    pose proof (Z.pow_nonneg 10 (Z.of_nat (digit_count (NilEmpty.string_of_uint l)))
                  ltac:(lia)).
    nia. }
  destruct (Pos.to_uint p) as [| l | l | l | l | l | l | l | l | l | l] eqn:Hd;
    [cbn; lia | exfalso; exact (Hhead l eq_refl) | ..];
    cbn [Pos.of_uint] in Hlow; specialize (Hlow l _ eq_refl);
    cbn [NilEmpty.string_of_uint];
    match goal with
    | |- (digit_count (String ?c ?r) <= _)%nat =>
        change (digit_count (String c r)) with (S (digit_count r))
    end;
    destruct (le_lt_dec (S (digit_count (NilEmpty.string_of_uint l))) k) as [Hle | Hgt];
    try exact Hle; exfalso;
    assert (10 ^ Z.of_nat k <= 10 ^ Z.of_nat (digit_count (NilEmpty.string_of_uint l)))
      by (apply Z.pow_le_mono_r; lia);
    lia.
Qed.

Lemma one_digit_within_limit : (1 <= MAX_STR_DIGITS)%nat.
Proof. apply Nat.leb_le. vm_compute. reflexivity. Qed.

(** Within the limit, the decimal text has at most 4300 digits. *)
Lemma digit_count_repr_int (z : Z) :
  within_str_limit z = true ->
  (digit_count (repr_int z) <= MAX_STR_DIGITS)%nat.
Proof.
  unfold within_str_limit, str_limit. intros Hz. apply Z.ltb_lt in Hz.
  unfold repr_int.
  destruct z as [| p | p]; [exact one_digit_within_limit | ..];
    cbn [Z.to_int NilZero.string_of_int Z.abs] in *;
    pose proof (Unsigned.to_uint_nonnil p) as Hnil;
    pose proof (digit_count_pos p MAX_STR_DIGITS Hz) as Hcount;
    assert (Htext : NilZero.string_of_uint (Pos.to_uint p)
                    = NilEmpty.string_of_uint (Pos.to_uint p))
      by (destruct (Pos.to_uint p); [contradiction | reflexivity ..]);
    rewrite Htext.
  - exact Hcount.
  - change (digit_count (String "-" ?s)) with (digit_count s). exact Hcount.
Qed.

(** [int] reads back what [repr] wrote, within the limit. *)
Lemma int_of_bytes_repr_int (z : Z) :
  within_str_limit z = true -> int_of_bytes (repr_int z) = Some z.
Proof.
  intros Hz. unfold int_of_bytes. rewrite parse_literal_repr_int.
  apply digit_count_repr_int, Nat.leb_le in Hz. now rewrite Hz.
Qed.

Lemma int64_below_str_limit : INT64_MAX + 1 < str_limit.
Proof. vm_compute. reflexivity. Qed.

(** A 64-bit integer is well within the limit. *)
Lemma int64_within_limit (z : Z) :
  INT64_MIN <= z <= INT64_MAX -> within_str_limit z = true.
Proof.
  intros Hz. unfold within_str_limit. apply Z.ltb_lt.
  pose proof int64_below_str_limit. unfold INT64_MIN, INT64_MAX in *. lia.
Qed.

Lemma py_repr_int_ok (z : Z) :
  within_str_limit z = true -> py_repr_int z = Ok (repr_int z).
Proof. unfold py_repr_int. now intros ->. Qed.

(** ** The parser and the grammar of literals *)

Lemma append_nil_l (s : string) : EmptyString +:+ s = s.
Proof. reflexivity. Qed.

Lemma append_cons (c : ascii) (s t : string) :
  String c s +:+ t = String c (s +:+ t).
Proof. reflexivity. Qed.

Lemma string_app_assoc (a b c : string) : (a +:+ b) +:+ c = a +:+ (b +:+ c).
Proof.
  induction a as [| x a IH]; rewrite ?append_nil_l, ?append_cons;
    [reflexivity | now f_equal].
Qed.

Lemma digit_val_range (c : ascii) (d : Z) :
  digit_val c = Some d -> 0 <= d <= 9.
Proof.
  unfold digit_val.
  destruct ((48 <=? N_of_ascii c)%N && (N_of_ascii c <=? 57)%N) eqn:H;
    [| discriminate].
  apply andb_true_iff in H as [Hlo Hhi].
  apply N.leb_le in Hlo, Hhi. intros [= <-]. lia.
Qed.

(** A digit is neither a blank, nor a sign, nor an underscore. *)
Lemma digit_is_plain (c : ascii) (d : Z) :
  digit_val c = Some d ->
  is_space c = false /\ c <> "+"%char /\ c <> "-"%char /\ Ascii.eqb c "_" = false.
Proof.
  destruct c as [[] [] [] [] [] [] [] []]; try discriminate;
    intros _; repeat split; discriminate.
Qed.

(** A blank is neither a digit nor an underscore. *)
Lemma space_is_plain (c : ascii) :
  is_space c = true -> digit_val c = None /\ Ascii.eqb c "_" = false.
Proof.
  destruct c as [[] [] [] [] [] [] [] []]; try discriminate;
    intros _; split; reflexivity.
Qed.

Lemma skip_spaces_blanks (lead s : string) :
  blanks lead = true -> skip_spaces (lead +:+ s) = skip_spaces s.
Proof.
  induction lead as [| c lead IH]; [reflexivity |].
  cbn [blanks]. intros [Hc Hl]%andb_true_iff.
  rewrite append_cons. cbn [skip_spaces]. rewrite Hc. auto.
Qed.

Lemma skip_spaces_split (s : string) :
  exists lead, blanks lead = true /\ s = lead +:+ skip_spaces s.
Proof.
  induction s as [| c s (lead & Hlead & Hs)].
  - exists EmptyString. auto.
  - cbn [skip_spaces]. destruct (is_space c) eqn:Hc.
    + exists (String c lead). cbn [blanks]. rewrite append_cons.
      rewrite Hc, Hlead. split; [reflexivity | congruence].
    + exists EmptyString. auto.
Qed.

Lemma skip_spaces_all (s : string) :
  skip_spaces s = EmptyString <-> blanks s = true.
Proof.
  induction s as [| c s IH]; [easy |].
  cbn [skip_spaces blanks]. destruct (is_space c); [exact IH | easy].
Qed.

Lemma leading_digits_scan (s : string) :
  leading_digits s = scan_digits s 0 true.
Proof.
  destruct s as [| c r]; [reflexivity |].
  cbn [leading_digits scan_digits].
  destruct (digit_val c) as [d |]; [reflexivity |].
  now destruct (Ascii.eqb c "_").
Qed.

(** What the digit loop has read when it stops. *)
Lemma scan_digits_sound (s : string) :
  forall (acc : Z) (us : bool) (v : Z) (rest : string),
  scan_digits s acc us = Some (v, rest) ->
  exists t ds,
    s = t +:+ rest
    /\ v = acc * 10 ^ Z.of_nat (length ds) + place_value ds
    /\ (if us then digit_run t ds
        else (t = EmptyString /\ ds = [])
             \/ digit_run t ds
             \/ exists t', t = String "_" t' /\ digit_run t' ds).
Proof.
  induction s as [| c r IH]; intros acc us v rest Hscan.
  - cbn [scan_digits] in Hscan. destruct us; [discriminate |].
    injection Hscan as <- <-. exists EmptyString, [].
    split; [reflexivity |]. split; [cbn; lia | auto].
  - cbn [scan_digits] in Hscan.
    destruct (digit_val c) as [d |] eqn:Hd.
    + destruct (IH _ _ _ _ Hscan) as (t & ds & -> & -> & Hrun).
      exists (String c t), (d :: ds).
      split; [reflexivity |]. split.
      * cbn [place_value length]. rewrite Nat2Z.inj_succ, Z.pow_succ_r by lia. lia.
      * assert (Hdr : digit_run (String c t) (d :: ds)).
        { destruct Hrun as [[-> ->] | [Hrun | (t' & -> & Hrun)]].
          - now apply run_last.
          - now apply run_next.
          - now apply run_underscore. }
        destruct us; auto.
    + destruct (Ascii.eqb c "_") eqn:Hus.
      * destruct us; [discriminate |].
        apply Ascii.eqb_eq in Hus. subst c.
        destruct (IH _ _ _ _ Hscan) as (t & ds & -> & -> & Hrun).
        exists (String "_" t), ds.
        split; [reflexivity |]. split; [reflexivity |]. eauto.
      * destruct us; [discriminate |].
        injection Hscan as <- <-. exists EmptyString, [].
        split; [reflexivity |]. split; [cbn; lia | auto].
Qed.

Lemma scan_digits_blanks (trail : string) (acc : Z) :
  blanks trail = true -> scan_digits trail acc false = Some (acc, trail).
Proof.
  destruct trail as [| c r]; [reflexivity |].
  cbn [blanks]. intros [Hc _]%andb_true_iff.
  destruct (space_is_plain c Hc) as [Hd Hus].
  cbn [scan_digits]. now rewrite Hd, Hus.
Qed.

(** The digit loop reads a whole run and stops at the blanks after it. *)
Lemma scan_digits_complete (run : string) (ds : list Z) :
  digit_run run ds ->
  forall (acc : Z) (us : bool) (trail : string),
  blanks trail = true ->
  scan_digits (run +:+ trail) acc us
  = Some (acc * 10 ^ Z.of_nat (length ds) + place_value ds, trail).
Proof.
  induction 1 as [c d Hd | c d s ds Hd Hrun IH | c d s ds Hd Hrun IH];
    intros acc us trail Htrail; rewrite ?append_cons, ?append_nil_l;
    cbn [scan_digits]; rewrite Hd.
  - rewrite (scan_digits_blanks _ _ Htrail). cbn [length place_value].
    do 2 f_equal. cbn. lia.
  - rewrite (IH _ _ _ Htrail). do 2 f_equal.
    cbn [place_value length]. rewrite Nat2Z.inj_succ, Z.pow_succ_r by lia. lia.
  - cbn [scan_digits]. change (digit_val "_") with (@None Z).
    change (Ascii.eqb "_" "_") with true. cbn iota.
    rewrite (IH _ _ _ Htrail). do 2 f_equal.
    cbn [place_value length]. rewrite Nat2Z.inj_succ, Z.pow_succ_r by lia. lia.
Qed.

Lemma digit_run_head (run : string) (ds : list Z) :
  digit_run run ds ->
  exists c r d, run = String c r /\ digit_val c = Some d.
Proof. destruct 1; eauto. Qed.

Lemma split_sign_plain (c : ascii) (r : string) :
  c <> "+"%char -> c <> "-"%char ->
  split_sign (String c r) = (false, String c r).
Proof.
  intros Hp Hm. unfold split_sign.
  destruct c as [[] [] [] [] [] [] [] []]; try reflexivity; congruence.
Qed.

Lemma split_sign_cases (s : string) :
  (exists r, s = String "+" r /\ split_sign s = (false, r))
  \/ (exists r, s = String "-" r /\ split_sign s = (true, r))
  \/ split_sign s = (false, s).
Proof.
  destruct s as [| c r]; [auto |].
  destruct (Ascii.eqb_spec c "+") as [-> | Hp]; [left; eauto |].
  destruct (Ascii.eqb_spec c "-") as [-> | Hm]; [right; left; eauto |].
  right; right. now apply split_sign_plain.
Qed.

(** Every result of the parser is a literal. *)
Lemma parse_literal_sound (b : string) (z : Z) :
  parse_literal b = Some z -> base10_literal b z.
Proof.
  unfold parse_literal. intros Hparse.
  destruct (skip_spaces_split b) as (lead & Hlead & Hb).
  assert (Hmid : forall (sign s1 : string) (negative : bool),
             skip_spaces b = sign +:+ s1 ->
             (forall v : Z, signed sign v (if negative then - v else v)) ->
             match leading_digits s1 with
             | Some (v, rest) =>
                 match skip_spaces rest with
                 | EmptyString => Some (if negative then - v else v)
                 | String _ _ => None
                 end
             | None => None
             end = Some z ->
             base10_literal b z).
  { intros sign s1 negative Hs Hsign Hrest.
    rewrite leading_digits_scan in Hrest.
    destruct (scan_digits s1 0 true) as [[v rest] |] eqn:Hscan; [| discriminate].
    destruct (skip_spaces rest) eqn:Htrail; [| discriminate].
    injection Hrest as <-.
    destruct (scan_digits_sound _ _ _ _ _ Hscan) as (run & ds & -> & -> & Hrun).
    apply skip_spaces_all in Htrail.
    rewrite Hb, Hs. rewrite Z.mul_0_l, Z.add_0_l.
    exact (literal lead sign run rest ds _ Hlead (Hsign _) Hrun Htrail). }
  destruct (split_sign_cases (skip_spaces b))
    as [(r & Hs & Hsplit) | [(r & Hs & Hsplit) | Hsplit]];
    rewrite Hsplit in Hparse.
  - apply (Hmid "+" r false); [exact Hs | constructor | exact Hparse].
  - apply (Hmid "-" r true); [exact Hs | constructor | exact Hparse].
  - apply (Hmid EmptyString (skip_spaces b) false);
      [reflexivity | constructor | exact Hparse].
Qed.

(** Every literal is read by the parser, as the integer it spells. *)
Lemma parse_literal_complete (b : string) (z : Z) :
  base10_literal b z -> parse_literal b = Some z.
Proof.
  intros [lead sign run trail ds z' Hlead Hsign Hrun Htrail].
  destruct (digit_run_head _ _ Hrun) as (c & r & d & Hhead & Hd).
  destruct (digit_is_plain _ _ Hd) as (Hsp & Hplus & Hminus & _).
  assert (Hdigits : leading_digits (run +:+ trail) = Some (place_value ds, trail)).
  { rewrite leading_digits_scan, (scan_digits_complete _ _ Hrun _ _ _ Htrail).
    now rewrite Z.mul_0_l, Z.add_0_l. }
  assert (Hend : skip_spaces trail = EmptyString) by now apply skip_spaces_all.
  unfold parse_literal. rewrite (skip_spaces_blanks _ _ Hlead).
  destruct Hsign as [v | v | v].
  - rewrite append_nil_l. rewrite Hhead in *. rewrite append_cons in *.
    cbn [skip_spaces]. rewrite Hsp, (split_sign_plain _ _ Hplus Hminus).
    now rewrite Hdigits, Hend.
  - rewrite append_cons, append_nil_l. cbn [skip_spaces].
    change (is_space "+") with false. cbn [split_sign].
    now rewrite Hdigits, Hend.
  - rewrite append_cons, append_nil_l. cbn [skip_spaces].
    change (is_space "-") with false. cbn [split_sign].
    now rewrite Hdigits, Hend.
Qed.

Lemma digit_count_app (a b : string) :
  digit_count (a +:+ b) = (digit_count a + digit_count b)%nat.
Proof.
  induction a as [| c a IH]; [reflexivity |].
  rewrite append_cons. cbn [digit_count]. rewrite IH. now destruct (digit_val c).
Qed.

Lemma digit_count_blanks (s : string) : blanks s = true -> digit_count s = O.
Proof.
  induction s as [| c s IH]; [reflexivity |].
  cbn [blanks digit_count]. intros [Hc Hs]%andb_true_iff.
  destruct (space_is_plain c Hc) as [-> _]. auto.
Qed.

Lemma digit_count_run (run : string) (ds : list Z) :
  digit_run run ds -> digit_count run = length ds.
Proof.
  induction 1 as [c d Hd | c d s ds Hd Hrun IH | c d s ds Hd Hrun IH];
    cbn [digit_count length]; rewrite Hd.
  - reflexivity.
  - now rewrite IH.
  - change (digit_val "_") with (@None Z). cbn iota. now rewrite IH.
Qed.

Lemma place_value_bound (run : string) (ds : list Z) :
  digit_run run ds -> 0 <= place_value ds < 10 ^ Z.of_nat (length ds).
Proof.
  induction 1 as [c d Hd | c d s ds Hd Hrun IH | c d s ds Hd Hrun IH];
    apply digit_val_range in Hd; cbn [place_value length];
    rewrite ?Nat2Z.inj_succ, ?Z.pow_succ_r by lia.
  - cbn. lia.
  - nia.
  - nia.
Qed.

(** The number of digit characters of a literal is the number of its
    digits, and the integer it spells is below the matching power of 10. *)
Lemma base10_literal_size (b : string) (z : Z) :
  base10_literal b z -> Z.abs z < 10 ^ Z.of_nat (digit_count b).
Proof.
  intros [lead sign run trail ds z' Hlead Hsign Hrun Htrail].
  assert (Hs : digit_count sign = O) by (destruct Hsign; reflexivity).
  assert (Hcount : digit_count (lead +:+ sign +:+ run +:+ trail) = length ds).
  { rewrite !digit_count_app, (digit_count_blanks _ Hlead),
      (digit_count_blanks _ Htrail), (digit_count_run _ _ Hrun), Hs. lia. }
  rewrite Hcount.
  pose proof (place_value_bound _ _ Hrun) as Hb.
  destruct Hsign; lia.
Qed.

(** What [int] accepts: the literals of at most 4300 digits. *)
Lemma int_of_bytes_spec (b : string) (z : Z) :
  int_of_bytes b = Some z
  <-> base10_literal b z /\ (digit_count b <= MAX_STR_DIGITS)%nat.
Proof.
  unfold int_of_bytes. split.
  - destruct (parse_literal b) as [v |] eqn:Hparse; [| discriminate].
    destruct (digit_count b <=? MAX_STR_DIGITS)%nat eqn:Hcount; [| discriminate].
    intros [= <-]. split; [now apply parse_literal_sound | now apply Nat.leb_le].
  - intros [Hlit Hcount]. rewrite (parse_literal_complete _ _ Hlit).
    apply Nat.leb_le in Hcount. now rewrite Hcount.
Qed.

(** Whatever [int] returns can be written back by [repr]. *)
Lemma int_of_bytes_within (b : string) (z : Z) :
  int_of_bytes b = Some z -> within_str_limit z = true.
Proof.
  intros [Hlit Hcount]%int_of_bytes_spec.
  unfold within_str_limit, str_limit. apply Z.ltb_lt.
  apply base10_literal_size in Hlit.
  assert (10 ^ Z.of_nat (digit_count b) <= 10 ^ Z.of_nat MAX_STR_DIGITS)
    by (apply Z.pow_le_mono_r; lia).
  lia.
Qed.

(** ** UTF-8 and ASCII *)





(** ** Identifiers *)

Lemma length_hex_fixed (width : nat) (n : N) : length (hex_fixed width n) = width.
Proof.
  revert n. induction width as [| k IH]; intros n; [reflexivity |].
  cbn [hex_fixed]. rewrite length_app, IH. cbn. lia.
Qed.

Lemma length_string_of_list_ascii (l : list ascii) :
  String.length (string_of_list_ascii l) = length l.
Proof.
  induction l as [| c l IH]; [reflexivity |]. cbn. now rewrite IH.
Qed.

(** The text of a UUID always has 36 characters. *)
Lemma length_str_uuid (u : UUID) : String.length (str_uuid u) = 36%nat.
Proof.
  unfold str_uuid. rewrite length_string_of_list_ascii.
  repeat (rewrite ?length_app, ?length_take, ?length_drop, ?length_hex_fixed;
          cbn [length]).
  reflexivity.
Qed.

(** Hence an identifier never collides with the keys of the
    instrumentation of [Cache.store]. *)
Lemma str_uuid_fresh (u : UUID) :
  str_uuid u <> "Cache.store"
  /\ str_uuid u <> "Cache.store:inputs"
  /\ str_uuid u <> "Cache.store:outputs".
Proof.
  pose proof (length_str_uuid u) as Hlen.
  repeat split; intros Heq; rewrite Heq in Hlen; discriminate Hlen.
Qed.

(** ** Server commands *)

Lemma lrange_all (l : list string) : lrange l 0 (-1) = l.
Proof.
  unfold lrange. cbn [Z.ltb Z.compare].
  destruct l as [| x l]; [reflexivity |].
  set (llen := Z.of_nat (length (x :: l))).
  assert (Hpos : 0 < llen) by (subst llen; cbn [length]; lia).
  replace (llen + -1 <? 0) with false by (symmetry; apply Z.ltb_ge; lia).
  replace (llen <=? 0) with false by (symmetry; apply Z.leb_gt; lia).
  replace (llen <=? llen + -1) with false by (symmetry; apply Z.leb_gt; lia).
  cbn [orb drop].
  replace (Z.to_nat (llen + -1 - 0 + 1)) with (length (x :: l)) by (subst llen; lia).
  apply firstn_all.
Qed.

(** ** Running computations *)

Lemma bind_ok {A B : Type} (m : M A) (f : A -> M B) (w w' : World) (a : A) :
  m w = (Ok a, w') -> bind m f w = f a w'.
Proof. intros H. unfold bind. now rewrite H. Qed.

Lemma bind_raise {A B : Type} (m : M A) (f : A -> M B) (w w' : World) (e : exn) :
  m w = (Raise e, w') -> bind m f w = (Raise e, w').
Proof. intros H. unfold bind. now rewrite H. Qed.

Lemma server_incr_ok (d : gmap string rvalue) (name : string) (n : Z) :
  counter_value d name = Some n -> n < INT64_MAX ->
  server_incr name d = (Ok (n + 1), <[name := RStr (repr_int (n + 1))]> d).
Proof.
  unfold counter_value, server_incr. intros Hc Hn.
  destruct (d !! name) as [[b | l |] |]; try discriminate.
  - rewrite Hc. apply Z.ltb_lt in Hn. rewrite Hn. reflexivity.
  - injection Hc as <-. reflexivity.
Qed.

Lemma server_rpush_ok (d : gmap string rvalue) (key value : string) (l : list string) :
  list_value d key = Some l ->
  server_rpush key value d
  = (Ok (Z.of_nat (length l) + 1), <[key := RList (l ++ [value])]> d).
Proof.
  unfold list_value, server_rpush. intros Hl.
  destruct (d !! key) as [[b | l' |] |]; try discriminate.
  - injection Hl as ->. reflexivity.
  - injection Hl as <-. reflexivity.
Qed.

Lemma list_value_insert_ne (d : gmap string rvalue) (k key : string) (x : rvalue) :
  k <> key -> list_value (<[k := x]> d) key = list_value d key.
Proof. intros Hne. unfold list_value. now rewrite lookup_insert_ne. Qed.

(** ** [get] against a Redis handle *)

Lemma get_present (self : Cache) (key : string)
  (fn : option (option string -> result pyval)) (w : World) (b : string) :
  _redis self = Redis -> db w !! key = Some (RStr b) ->
  get self key fn w
  = (match fn with Some f => f (Some b) | None => Ok (PVal (VBytes b)) end,
     mkWorld (db w) (cmds w ++ [GET key]) (stdout w) (urandom w) (draws w)).
Proof.
  intros Hself Hkey. unfold get, handle_get. rewrite Hself.
  unfold bind, redis_get, execute_command, server_get. rewrite Hkey.
  destruct fn; reflexivity.
Qed.

Lemma get_absent (self : Cache) (key : string)
  (fn : option (option string -> result pyval)) (w : World) :
  _redis self = Redis -> db w !! key = None ->
  get self key fn w
  = (match fn with Some f => f None | None => Ok PNone end,
     mkWorld (db w) (cmds w ++ [GET key]) (stdout w) (urandom w) (draws w)).
Proof.
  intros Hself Hkey. unfold get, handle_get. rewrite Hself.
  unfold bind, redis_get, execute_command, server_get. rewrite Hkey.
  destruct fn; reflexivity.
Qed.

(** ** [replay] against a Redis handle *)

Lemma replay_loop_run (name : string) (pairs : list (string * string)) :
  forall w : World,
  forallb (fun p => utf8_valid p.1) pairs = true ->
  replay_loop name pairs w
  = (Ok tt,
     mkWorld (db w) (cmds w)
       (stdout w ++ map (fun p => history_line name p.1 p.2) pairs)
       (urandom w) (draws w)).
Proof.
  induction pairs as [| [i o] pairs IH]; intros w Hvalid.
  - cbn [replay_loop map ret]. rewrite app_nil_r. now destruct w.
  - cbn [forallb fst] in Hvalid. apply andb_true_iff in Hvalid as [Hi Hrest].
    cbn [replay_loop]. unfold bind, lift, decode_utf8, print. rewrite Hi.
    rewrite (IH _ Hrest). cbn [db cmds stdout urandom draws map fst snd].
    now rewrite <- app_assoc.
Qed.

(** Whatever the loop does, it only adds lines to what was printed. *)
Lemma replay_loop_appends (name : string) (pairs : list (string * string)) :
  forall w : World,
  exists lines, stdout (snd (replay_loop name pairs w)) = stdout w ++ lines.
Proof.
  induction pairs as [| [i o] pairs IH]; intros w.
  - exists []. cbn. now rewrite app_nil_r.
  - cbn [replay_loop]. unfold bind, lift, decode_utf8, print.
    destruct (utf8_valid i).
    + match goal with |- context [replay_loop name pairs ?w1] =>
        destruct (IH w1) as [lines Hlines] end.
      cbn [stdout] in Hlines.
      exists (history_line name i o :: lines).
      rewrite Hlines, <- app_assoc. reflexivity.
    + exists []. cbn. now rewrite app_nil_r.
Qed.

(** The first half of [replay]: the counter is read and the header printed. *)
Lemma read_count_within (held : option rvalue) (count : Z) :
  read_count held = Ok count -> within_str_limit count = true.
Proof.
  unfold read_count, py_int.
  destruct held as [[b | l |] |]; try discriminate.
  - destruct (int_of_bytes b) as [z |] eqn:Hb; [| discriminate].
    intros [= <-]. exact (int_of_bytes_within _ _ Hb).
  - intros [= <-]. reflexivity.
Qed.

Lemma format_header_ok (name : string) (count : Z) :
  within_str_limit count = true ->
  format_header name count = Ok (header_line name count).
Proof. intros H. unfold format_header. now rewrite (py_repr_int_ok _ H). Qed.

Lemma replay_header (self : pyobject) (name : string) (w : World) (count : Z) :
  getattr_redis self = Some Redis ->
  read_count (db w !! name) = Ok count ->
  replay (BoundMethod self name) w
  = bind (redis_lrange (name +:+ ":inputs") 0 (-1))
      (fun fxn_inputs =>
         bind (redis_lrange (name +:+ ":outputs") 0 (-1))
           (fun fxn_outputs => replay_loop name (zip fxn_inputs fxn_outputs)))
      (mkWorld (db w)
         (cmds w ++ EXISTS name
            :: match db w !! name with None => [] | Some _ => [GET name] end)
         (stdout w ++ [header_line name count]) (urandom w) (draws w)).
Proof.
  intros Hself Hcount. unfold replay. rewrite Hself.
  pose proof (format_header_ok name count (read_count_within _ _ Hcount)) as Hfmt.
  unfold bind at 1. unfold redis_exists, execute_command, server_exists.
  unfold read_count in Hcount.
  destruct (db w !! name) as [[b | l |] |] eqn:Hkey; try discriminate.
  - cbn [Z.eqb]. unfold bind at 1. unfold bind at 1.
    unfold redis_get, execute_command, server_get.
    cbn [db cmds stdout urandom draws]. rewrite Hkey.
    unfold lift at 1. rewrite Hcount.
    unfold bind at 1. unfold lift at 1. rewrite Hfmt.
    unfold bind at 1. unfold print.
    cbn [db cmds stdout urandom draws]. now rewrite <- app_assoc.
  - cbn [Z.eqb]. injection Hcount as <-.
    unfold bind at 1. unfold ret at 1.
    unfold bind at 1. unfold lift at 1. rewrite Hfmt.
    unfold bind at 1. unfold print.
    cbn [db cmds stdout urandom draws]. reflexivity.
Qed.

Lemma redis_lrange_all (key : string) (w : World) (l : list string) :
  list_value (db w) key = Some l ->
  redis_lrange key 0 (-1) w
  = (Ok l, mkWorld (db w) (cmds w ++ [LRANGE key 0 (-1)])
             (stdout w) (urandom w) (draws w)).
Proof.
  unfold list_value, redis_lrange, execute_command, server_lrange.
  destruct (db w !! key) as [[b | l' |] |]; try discriminate; intros [= <-].
  - now rewrite lrange_all.
  - reflexivity.
Qed.

Lemma redis_lrange_stdout (key : string) (start stop : Z) (w : World) :
  stdout (snd (redis_lrange key start stop w)) = stdout w.
Proof.
  unfold redis_lrange, execute_command.
  now destruct (server_lrange key start stop (db w)).
Qed.

Lemma read_count_of_counter (d : gmap string rvalue) (name : string) (n : Z) :
  counter_value d name = Some n -> read_count (d !! name) = Ok n.
Proof.
  unfold counter_value, read_count.
  destruct (d !! name) as [[b | l |] |]; try discriminate.
  - intros H. apply string2ll_canonical in H as [-> Hrange].
    unfold py_int.
    now rewrite (int_of_bytes_repr_int _ (int64_within_limit _ Hrange)).
  - now intros [= <-].
Qed.

Lemma store_ready_inv (d : gmap string rvalue) :
  store_ready d = true ->
  exists n ins outs,
    counter_value d "Cache.store" = Some n /\ n < INT64_MAX
    /\ list_value d "Cache.store:inputs" = Some ins
    /\ list_value d "Cache.store:outputs" = Some outs.
Proof.
  unfold store_ready. intros H.
  apply andb_true_iff in H as [H Houts]. apply andb_true_iff in H as [Hn Hins].
  destruct (counter_value d "Cache.store") as [n |]; [| discriminate].
  destruct (list_value d "Cache.store:inputs") as [ins |]; [| discriminate].
  destruct (list_value d "Cache.store:outputs") as [outs |]; [| discriminate].
  exists n, ins, outs. apply Z.ltb_lt in Hn. auto.
Qed.

(** ** The header line *)

Lemma append_length (a b : string) :
  String.length (a +:+ b) = (String.length a + String.length b)%nat.
Proof.
  induction a as [| c a IH]; [now rewrite append_nil_l |].
  rewrite append_cons. cbn [String.length Nat.add]. now rewrite IH.
Qed.

Lemma append_inv_l (p x y : string) : p +:+ x = p +:+ y -> x = y.
Proof.
  induction p as [| c p IH]; [now rewrite !append_nil_l |].
  rewrite !append_cons. intros [= H]. exact (IH H).
Qed.

Lemma append_inv_r (b x : string) : forall y : string, x +:+ b = y +:+ b -> x = y.
Proof.
  induction x as [| c x IH]; intros [| c' y] H.
  - reflexivity.
  - apply (f_equal String.length) in H.
    rewrite append_nil_l, append_cons in H. cbn [String.length] in H.
    rewrite append_length in H. lia.
  - apply (f_equal String.length) in H.
    rewrite append_nil_l, append_cons in H. cbn [String.length] in H.
    rewrite append_length in H. lia.
  - rewrite !append_cons in H. injection H as -> H. f_equal. exact (IH _ H).
Qed.

Lemma repr_int_inj (a b : Z) : repr_int a = repr_int b -> a = b.
Proof.
  intros H. pose proof (parse_literal_repr_int a) as Ha.
  rewrite H, parse_literal_repr_int in Ha. now injection Ha.
Qed.

(** Two counts that print the same header are the same count. *)
Lemma header_line_inj (name : string) (c1 c2 : Z) :
  header_line name c1 = header_line name c2 -> c1 = c2.
Proof.
  unfold header_line. intros H.
  apply append_inv_l, append_inv_l, append_inv_r in H.
  exact (repr_int_inj _ _ H).
Qed.

(** ** The read path *)

(** C4. [get] with no conversion function returns the stored bytes
    unchanged, and [None] when the key does not exist.  With a conversion
    function it returns the function applied to what was fetched, the
    absent case included: a conversion that does not handle [None] makes
    the call fail, as the conversions of [get_str] and [get_int] do. *)
Theorem get_contract (self : Cache) (key : string) (w : World)
  (f : option string -> result pyval) :
  _redis self = Redis ->
  (forall b, db w !! key = Some (RStr b) ->
     fst (get self key None w) = Ok (PVal (VBytes b))
     /\ fst (get self key (Some f) w) = f (Some b))
  /\ (db w !! key = None ->
      fst (get self key None w) = Ok PNone
      /\ fst (get self key (Some f) w) = f None
      /\ fst (get_str self key w) = Raise AttributeError
      /\ fst (get_int self key w) = Raise TypeError).
Proof.
  intros Hself. split.
  - intros b Hkey. now rewrite !(get_present self key _ w b Hself Hkey).
  - intros Hkey. unfold get_str, get_int.
    now rewrite !(get_absent self key _ w Hself Hkey).
Qed.

Lemma int_of_bytes_over (b : string) :
  (MAX_STR_DIGITS < digit_count b)%nat -> int_of_bytes b = None.
Proof.
  intros H. unfold int_of_bytes.
  destruct (parse_literal b); [| reflexivity].
  apply Nat.leb_gt in H. now rewrite H.
Qed.

Lemma base10_literal_fun (b : string) (z z' : Z) :
  base10_literal b z -> base10_literal b z' -> z = z'.
Proof.
  intros H H'. apply parse_literal_complete in H, H'.
  rewrite H in H'. now injection H'.
Qed.

(** C5 (amended). For a key that holds bytes: when they are a base-10
    integer literal (blanks, an optional sign, digits with single
    underscores allowed between them, blanks) of at most 4300 digits,
    [get_int] returns the integer the literal denotes by place value;
    when they are no such literal, [get_int] fails with [ValueError] (the
    format error); and when they hold more than 4300 digits, [get_int]
    fails with [ValueError] as well, literal or not.  In particular the
    decimal text of an integer below 10^4300 in absolute value is read
    back as that integer. *)
Theorem get_int_contract (self : Cache) (key : string) (w : World) (b : string) :
  _redis self = Redis ->
  db w !! key = Some (RStr b) ->
  (forall z, base10_literal b z -> (digit_count b <= MAX_STR_DIGITS)%nat ->
     fst (get_int self key w) = Ok (PVal (VInt z)))
  /\ ((forall z, ~ base10_literal b z) ->
      fst (get_int self key w) = Raise ValueError)
  /\ ((MAX_STR_DIGITS < digit_count b)%nat ->
      fst (get_int self key w) = Raise ValueError)
  /\ (forall z, Z.abs z < 10 ^ 4300 -> b = repr_int z ->
        fst (get_int self key w) = Ok (PVal (VInt z)))
  /\ (forall r, fst (get_int self key w) = Ok r ->
        exists z, r = PVal (VInt z) /\ base10_literal b z
                  /\ (digit_count b <= MAX_STR_DIGITS)%nat).
Proof.
  intros Hself Hkey. unfold get_int.
  rewrite (get_present self key _ w b Hself Hkey). cbn [fst].
  unfold int_lambda, py_int.
  split; [| split; [| split; [| split]]].
  - intros z Hlit Hlen.
    now rewrite (proj2 (int_of_bytes_spec b z) (conj Hlit Hlen)).
  - intros Hnone. destruct (int_of_bytes b) as [z |] eqn:Hb; [| reflexivity].
    apply int_of_bytes_spec in Hb as [Hlit _]. now destruct (Hnone z).
  - intros Hover. now rewrite (int_of_bytes_over _ Hover).
  - intros z Hz ->. rewrite int_of_bytes_repr_int; [reflexivity |].
    unfold within_str_limit, str_limit. apply Z.ltb_lt. exact Hz.
  - intros r. destruct (int_of_bytes b) as [z |] eqn:Hb; [| discriminate].
    intros [= <-]. exists z. apply int_of_bytes_spec in Hb as [Hlit Hlen]. auto.
Qed.

(** ** Replay *)

(** C6. When the argument is not a bound operation reference ([None] or
    a function without [__self__]), or when the object it is bound to has
    no [Redis] instance as its [_redis], [replay] returns at once: no
    error, nothing printed, no command sent, the world unchanged. *)
Theorem replay_noop (fn : callable) (w : World) :
  is_bound_reference fn = false \/ has_store_connection fn = false ->
  replay fn w = (Ok tt, w).
Proof.
  intros [H | H].
  - destruct fn; [reflexivity | reflexivity | discriminate].
  - destruct fn as [| q | [[[| o]] |] q]; try reflexivity. discriminate.
Qed.

(** What [replay] prints when the counter and both histories can be
    read and every paired input is text. *)
Lemma replay_run (self : pyobject) (name : string) (w : World)
  (count : Z) (ins outs : list string) :
  getattr_redis self = Some Redis ->
  read_count (db w !! name) = Ok count ->
  list_value (db w) (name +:+ ":inputs") = Some ins ->
  list_value (db w) (name +:+ ":outputs") = Some outs ->
  forallb (fun p => utf8_valid p.1) (zip ins outs) = true ->
  replay (BoundMethod self name) w
  = (Ok tt,
     mkWorld (db w)
       (cmds w ++ EXISTS name
          :: match db w !! name with None => [] | Some _ => [GET name] end
          ++ [LRANGE (name +:+ ":inputs") 0 (-1);
              LRANGE (name +:+ ":outputs") 0 (-1)])
       (stdout w ++ header_line name count
          :: map (fun p => history_line name p.1 p.2) (zip ins outs))
       (urandom w) (draws w)).
Proof.
  intros Hself Hcount Hins Houts Hvalid.
  rewrite (replay_header self name w count Hself Hcount).
  match goal with |- context [bind _ _ ?w0] =>
    rewrite (bind_ok _ _ w0 _ _ (redis_lrange_all _ w0 ins Hins)) end.
  match goal with |- context [bind _ _ ?w0] =>
    rewrite (bind_ok _ _ w0 _ _ (redis_lrange_all _ w0 outs Houts)) end.
  rewrite (replay_loop_run name _ _ Hvalid).
  cbn [db cmds stdout urandom draws].
  f_equal. f_equal; rewrite <- !app_assoc; reflexivity.
Qed.

(** C7. For a method bound to an object with a [Redis] handle, whose
    counter reads [count] and whose histories hold [ins] and [outs] (of
    lengths m and n, the paired inputs being text), [replay] raises
    nothing and prints the header line followed by exactly min(m, n)
    lines, the i-th one pairing the i-th input with the i-th output,
    whether or not m = n; the database is left as it was.  In particular,
    when nothing was ever recorded for the method, it prints the header
    with count 0 and nothing else. *)
Theorem replay_prints (self : pyobject) (name : string) (w : World) :
  getattr_redis self = Some Redis ->
  let w' := snd (replay (BoundMethod self name) w) in
  (forall count ins outs,
      read_count (db w !! name) = Ok count ->
      list_value (db w) (name +:+ ":inputs") = Some ins ->
      list_value (db w) (name +:+ ":outputs") = Some outs ->
      forallb (fun p => utf8_valid p.1) (zip ins outs) = true ->
      let lines := map (fun p => history_line name p.1 p.2) (zip ins outs) in
      fst (replay (BoundMethod self name) w) = Ok tt
      /\ stdout w' = stdout w ++ header_line name count :: lines
      /\ length lines = Nat.min (length ins) (length outs)
      /\ (forall i input output,
            ins !! i = Some input -> outs !! i = Some output ->
            lines !! i = Some (history_line name input output))
      /\ db w' = db w)
  /\ (db w !! name = None ->
      db w !! (name +:+ ":inputs") = None ->
      db w !! (name +:+ ":outputs") = None ->
      fst (replay (BoundMethod self name) w) = Ok tt
      /\ stdout w' = stdout w ++ [header_line name 0]).
Proof.
  intros Hself w'. subst w'. split.
  - intros count ins outs Hcount Hins Houts Hvalid lines.
    rewrite (replay_run self name w count ins outs Hself Hcount Hins Houts Hvalid).
    cbn [fst snd db stdout].
    split; [reflexivity |]. split; [reflexivity |].
    split; [| split; [| reflexivity]].
    + subst lines. now rewrite length_map, length_zip_with.
    + intros i input output Hi Ho. subst lines.
      rewrite list_lookup_fmap, lookup_zip_with, Hi. cbn.
      rewrite Ho. reflexivity.
  - intros Hname Hin Hout.
    rewrite (replay_run self name w 0 [] [] Hself).
    + now cbn.
    + now rewrite Hname.
    + unfold list_value. now rewrite Hin.
    + unfold list_value. now rewrite Hout.
    + reflexivity.
Qed.

(** What [replay] has printed once the count is read, whatever the
    histories hold. *)
Lemma replay_header_printed (self : pyobject) (name : string) (w : World) (count : Z) :
  getattr_redis self = Some Redis ->
  read_count (db w !! name) = Ok count ->
  exists lines,
    stdout (snd (replay (BoundMethod self name) w))
    = stdout w ++ header_line name count :: lines.
Proof.
  intros Hself Hcount.
  rewrite (replay_header self name w count Hself Hcount).
  match goal with |- context [bind ?m ?f ?w1] =>
    set (w0 := w1); unfold bind at 1;
    pose proof (redis_lrange_stdout (name +:+ ":inputs") 0 (-1) w0) as Hs1;
    destruct (m w0) as [[fxn_inputs | e] w2]
  end; cbn [snd] in Hs1.
  - unfold bind at 1.
    pose proof (redis_lrange_stdout (name +:+ ":outputs") 0 (-1) w2) as Hs2.
    destruct (redis_lrange (name +:+ ":outputs") 0 (-1) w2)
      as [[fxn_outputs | e] w3]; cbn [snd] in Hs2.
    + destruct (replay_loop_appends name (zip fxn_inputs fxn_outputs) w3)
        as [lines Hlines].
      exists lines. rewrite Hlines, Hs2, Hs1. subst w0. cbn [stdout].
      now rewrite <- app_assoc.
    + exists []. cbn [snd]. rewrite Hs2, Hs1. reflexivity.
  - exists []. cbn [snd]. rewrite Hs1. reflexivity.
Qed.

(** C10. The count in the header line of [replay] is computed from what
    the counter key holds and from nothing else: 0 when the key is absent,
    the integer its bytes spell otherwise, whatever the histories hold.
    The header is the name, the words in between and the decimal text of
    that count, so that two counts never print the same header.  And
    there are states in which the count printed differs from the number of
    history lines printed below it: with the counter at 5 and two paired
    entries, the header says 5 and two lines follow. *)
Theorem replay_count_from_counter_key :
  (forall self name w count,
      getattr_redis self = Some Redis ->
      read_count (db w !! name) = Ok count ->
      exists lines,
        stdout (snd (replay (BoundMethod self name) w))
        = stdout w
          ++ (name +:+ " was called " +:+ repr_int count +:+ " times:") :: lines)
  /\ (forall self name w,
         getattr_redis self = Some Redis ->
         db w !! name = None ->
         exists lines,
           stdout (snd (replay (BoundMethod self name) w))
           = stdout w ++ (name +:+ " was called 0 times:") :: lines)
  /\ (forall self name w b z,
         getattr_redis self = Some Redis ->
         db w !! name = Some (RStr b) ->
         base10_literal b z -> (digit_count b <= MAX_STR_DIGITS)%nat ->
         exists lines,
           stdout (snd (replay (BoundMethod self name) w))
           = stdout w ++ header_line name z :: lines)
  /\ (forall name c1 c2, header_line name c1 = header_line name c2 -> c1 = c2)
  /\ (exists w lines,
         stdout (snd (replay (BoundMethod (Instance cache0) "Cache.store") w))
         = stdout w ++ header_line "Cache.store" 5 :: lines
         /\ header_line "Cache.store" 5 = "Cache.store was called 5 times:"
         /\ 5 <> Z.of_nat (length lines)).
Proof.
  split; [exact replay_header_printed |]. split; [| split; [| split]].
  - intros self name w Hself Hkey.
    apply (replay_header_printed self name w 0 Hself). now rewrite Hkey.
  - intros self name w b z Hself Hkey Hlit Hlen.
    apply (replay_header_printed self name w z Hself). rewrite Hkey.
    unfold read_count, py_int.
    now rewrite (proj2 (int_of_bytes_spec b z) (conj Hlit Hlen)).
  - exact header_line_inj.
  - exists skewed, ["Cache.store(*(1,)) -> b'a'"; "Cache.store(*(2,)) -> b'b'"].
    split; [vm_compute; reflexivity |]. split; [reflexivity | discriminate].
Qed.

(** ** Initialization *)

(** C8 (amended). Initialization creates the [Redis] handle and sends one
    FLUSHDB command, with the ASYNC option; the keys are detached from the
    keyspace at once, so right after initialization every key is absent:
    every counter reads 0 and every history is empty. *)
Theorem init_flushes (w : World) :
  let w' := snd (Cache_init w) in
  fst (Cache_init w) = Ok (mkCache Redis)
  /\ cmds w' = cmds w ++ [FLUSHDB true]
  /\ (forall key, db w' !! key = None)
  /\ (forall name,
        counter_value (db w') name = Some 0
        /\ read_count (db w' !! name) = Ok 0
        /\ list_value (db w') (name +:+ ":inputs") = Some []
        /\ list_value (db w') (name +:+ ":outputs") = Some [])
  /\ store_ready (db w') = true.
Proof.
  cbn. repeat split; try (intros; unfold counter_value, list_value);
    try (now rewrite lookup_empty).
Qed.

Section Properties.

Variable repr_str : string -> string.

(** What the client can encode can be displayed, and the other way
    round: both fail on an [int] over the digit limit only. *)
Lemma encode_displayable (data : Scalar) (bytes : string) :
  encode data = Ok bytes -> exists text, repr_scalar repr_str data = Ok text.
Proof. destruct data; cbn [encode repr_scalar]; eauto. Qed.

Lemma str_args_single (data : Scalar) (text : string) :
  repr_scalar repr_str data = Ok text ->
  str_args repr_str [data] = Ok ("(" +:+ text +:+ ",)").
Proof. intros H. unfold str_args. cbn [repr_each]. now rewrite H. Qed.

Lemma str_args_storable (data : Scalar) (bytes : string) :
  encode data = Ok bytes -> exists input, str_args repr_str [data] = Ok input.
Proof.
  intros H. destruct (encode_displayable data bytes H) as [text Htext].
  eexists. exact (str_args_single data text Htext).
Qed.

Lemma storable_encode (data : Scalar) :
  storable data = true -> exists bytes, encode data = Ok bytes.
Proof. unfold storable. destruct (encode data); [eauto | discriminate]. Qed.


Lemma store_spec (self : Cache) (data : Scalar) (w : World) (n : Z)
  (ins outs : list string) (bytes input : string) :
  _redis self = Redis ->
  counter_value (db w) "Cache.store" = Some n -> n < INT64_MAX ->
  list_value (db w) "Cache.store:inputs" = Some ins ->
  list_value (db w) "Cache.store:outputs" = Some outs ->
  encode data = Ok bytes ->
  str_args repr_str [data] = Ok input ->
  store repr_str self data w
  = (Ok (PVal (VText (next_key w))),
     mkWorld
       (<["Cache.store:outputs" := RList (outs ++ [next_key w])]>
          (<["Cache.store:inputs" := RList (ins ++ [input])]>
             (<[next_key w := RStr bytes]>
                (<["Cache.store" := RStr (repr_int (n + 1))]> (db w)))))
       (cmds w ++ [INCR "Cache.store"; SET (next_key w) bytes;
                   RPUSH "Cache.store:inputs" input;
                   RPUSH "Cache.store:outputs" (next_key w)])
       (stdout w) (urandom w) (S (draws w))).
Proof.
  intros Hself Hc Hn Hin Hout Henc Hdisp.
  destruct (str_uuid_fresh (uuid4_of (urandom w (draws w)))) as (Hk1 & Hk2 & Hk3).
  fold (next_key w) in Hk1, Hk2, Hk3.
  unfold store, store_decorated, count_calls, call_history, store_method.
  cbn [call __qualname__ binds_self existsb]. rewrite Hself. cbn [isinstance_Redis].
  unfold bind, redis_incr, execute_command.
  rewrite (server_incr_ok _ _ _ Hc Hn).
  unfold ret, lift. cbn [bind_data]. unfold uuid4, handle_set, redis_set.
  rewrite Henc, Hdisp. unfold execute_command, server_set.
  cbn [db cmds stdout urandom draws]. fold (next_key w).
  change ("Cache.store" +:+ ":inputs") with "Cache.store:inputs".
  change ("Cache.store" +:+ ":outputs") with "Cache.store:outputs".
  unfold redis_rpush. cbn [encode]. unfold execute_command.
  cbn [db cmds stdout urandom draws].
  rewrite (server_rpush_ok _ _ _ ins)
    by (rewrite !list_value_insert_ne by (auto; discriminate); exact Hin).
  cbn [db cmds stdout urandom draws].
  rewrite (server_rpush_ok _ _ _ outs)
    by (rewrite !list_value_insert_ne by (auto; discriminate); exact Hout).
  cbn [db cmds stdout urandom draws].
  rewrite <- !app_assoc. reflexivity.
Qed.

(** A value the client cannot encode: the call is counted, an identifier
    is drawn, and [set] raises before anything is sent. *)
Lemma store_refused (self : Cache) (data : Scalar) (w : World) (n : Z) (e : exn) :
  _redis self = Redis ->
  counter_value (db w) "Cache.store" = Some n -> n < INT64_MAX ->
  encode data = Raise e ->
  store repr_str self data w
  = (Raise e,
     mkWorld (<["Cache.store" := RStr (repr_int (n + 1))]> (db w))
       (cmds w ++ [INCR "Cache.store"]) (stdout w) (urandom w) (S (draws w))).
Proof.
  intros Hself Hc Hn Henc.
  unfold store, store_decorated, count_calls, call_history, store_method.
  cbn [call __qualname__ binds_self existsb]. rewrite Hself. cbn [isinstance_Redis].
  unfold bind, redis_incr, execute_command.
  rewrite (server_incr_ok _ _ _ Hc Hn).
  unfold ret, lift. cbn [bind_data]. unfold uuid4, handle_set, redis_set.
  rewrite Henc. unfold raise. cbn [db cmds stdout urandom draws]. reflexivity.
Qed.

(** A call of [store] that returns was given a value the client can
    encode. *)
Lemma store_ok_storable (self : Cache) (data : Scalar) (w : World) (k : pyval) :
  _redis self = Redis ->
  fst (store repr_str self data w) = Ok k -> storable data = true.
Proof.
  intros Hself. unfold storable.
  destruct (encode data) as [bytes | e] eqn:Henc; [reflexivity |].
  unfold store, store_decorated, count_calls, call_history, store_method.
  cbn [call __qualname__ binds_self existsb]. rewrite Hself. cbn [isinstance_Redis].
  unfold bind, redis_incr, execute_command.
  destruct (server_incr "Cache.store" (db w)) as [[m | e'] d]; [| discriminate].
  unfold ret, lift. cbn [bind_data]. unfold uuid4, handle_set, redis_set.
  rewrite Henc. unfold raise. discriminate.
Qed.

Lemma counter_value_bounds (d : gmap string rvalue) (name : string) (n : Z) :
  counter_value d name = Some n -> INT64_MIN <= n <= INT64_MAX.
Proof.
  unfold counter_value.
  destruct (d !! name) as [[b | l |] |]; try discriminate.
  - intros H. apply (string2ll_canonical _ _ H).
  - intros [= <-]. unfold INT64_MIN, INT64_MAX. lia.
Qed.

(** What the instrumentation keys hold after one call. *)
Lemma store_tracks (self : Cache) (data : Scalar) (w : World) (n : Z)
  (ins outs : list string) (bytes input : string) :
  _redis self = Redis ->
  counter_value (db w) "Cache.store" = Some n -> n < INT64_MAX ->
  list_value (db w) "Cache.store:inputs" = Some ins ->
  list_value (db w) "Cache.store:outputs" = Some outs ->
  encode data = Ok bytes ->
  str_args repr_str [data] = Ok input ->
  let w' := snd (store repr_str self data w) in
  fst (store repr_str self data w) = Ok (PVal (VText (next_key w)))
  /\ counter_value (db w') "Cache.store" = Some (n + 1)
  /\ list_value (db w') "Cache.store:inputs" = Some (ins ++ [input])
  /\ list_value (db w') "Cache.store:outputs" = Some (outs ++ [next_key w])
  /\ db w' !! next_key w = Some (RStr bytes)
  /\ urandom w' = urandom w /\ draws w' = S (draws w) /\ stdout w' = stdout w.
Proof.
  intros Hself Hc Hn Hin Hout Henc Hdisp.
  destruct (str_uuid_fresh (uuid4_of (urandom w (draws w)))) as (Hk1 & Hk2 & Hk3).
  fold (next_key w) in Hk1, Hk2, Hk3.
  pose proof (counter_value_bounds _ _ _ Hc) as [Hlo _].
  rewrite (store_spec self data w n ins outs bytes input Hself Hc Hn Hin Hout Henc Hdisp).
  cbn [fst snd db urandom draws stdout].
  repeat split.
  - unfold counter_value.
    rewrite !lookup_insert_ne by (auto; discriminate).
    rewrite lookup_insert_eq. apply string2ll_repr_int. lia.
  - unfold list_value.
    rewrite lookup_insert_ne by discriminate.
    now rewrite lookup_insert_eq.
  - unfold list_value. now rewrite lookup_insert_eq.
  - rewrite !lookup_insert_ne by auto.
    now rewrite lookup_insert_eq.
Qed.

Lemma next_keys_succ (w w' : World) (n : nat) :
  urandom w' = urandom w -> draws w' = S (draws w) ->
  next_keys w (S n) = next_key w :: next_keys w' n.
Proof.
  intros Hu Hd. unfold next_keys, next_key.
  cbn [seq map]. rewrite Nat.add_0_r. f_equal.
  rewrite <- seq_shift, map_map, Hu, Hd.
  apply map_ext. intros i. now rewrite Nat.add_succ_r.
Qed.

(** [store] called on each of [values] in turn, from a database where the
    counter reads [n] and the histories read [ins] and [outs]. *)
Lemma store_each_spec (self : Cache) (values : list Scalar) :
  _redis self = Redis ->
  forallb storable values = true ->
  forall (w : World) (n : Z) (ins outs : list string),
  counter_value (db w) "Cache.store" = Some n ->
  n + Z.of_nat (length values) <= INT64_MAX ->
  list_value (db w) "Cache.store:inputs" = Some ins ->
  list_value (db w) "Cache.store:outputs" = Some outs ->
  let w' := snd (store_each repr_str self values w) in
  fst (store_each repr_str self values w)
  = Ok (map (fun k => PVal (VText k)) (next_keys w (length values)))
  /\ counter_value (db w') "Cache.store" = Some (n + Z.of_nat (length values))
  /\ (exists inputs,
        Forall2 (fun v input => str_args repr_str [v] = Ok input) values inputs
        /\ list_value (db w') "Cache.store:inputs" = Some (ins ++ inputs))
  /\ list_value (db w') "Cache.store:outputs"
     = Some (outs ++ next_keys w (length values)).
Proof.
  intros Hself.
  induction values as [| v values IH]; intros Hstorable w n ins outs Hc Hn Hin Hout.
  - cbn [store_each length map snd fst ret]. unfold next_keys. cbn [seq map].
    rewrite Z.add_0_r, !app_nil_r.
    split; [reflexivity |]. split; [exact Hc |]. split; [| exact Hout].
    exists []. rewrite app_nil_r. split; [constructor | exact Hin].
  - cbn [length] in Hn. cbn [forallb] in Hstorable.
    apply andb_true_iff in Hstorable as [Hv Hrest'].
    destruct (storable_encode v Hv) as [bytes Henc].
    destruct (str_args_storable v bytes Henc) as [input Hdisp].
    destruct (store_tracks self v w n ins outs bytes input Hself Hc ltac:(lia)
                Hin Hout Henc Hdisp)
      as (Hr & Hc1 & Hin1 & Hout1 & _ & Hu & Hd & _).
    destruct (store repr_str self v w) as [r w1] eqn:Hstore.
    cbn [fst snd] in Hr, Hc1, Hin1, Hout1, Hu, Hd. subst r.
    specialize (IH Hrest' w1 (n + 1) _ _ Hc1 ltac:(lia) Hin1 Hout1).
    destruct IH as (Hr2 & Hc2 & (inputs & Hall & Hin2) & Hout2).
    destruct (store_each repr_str self values w1) as [r2 w2] eqn:Hrest.
    cbn [fst snd] in Hr2, Hc2, Hin2, Hout2. subst r2.
    assert (Hrun : store_each repr_str self (v :: values) w
                   = (Ok (map (fun k => PVal (VText k))
                            (next_keys w (length (v :: values)))), w2)).
    { cbn [store_each length].
      rewrite (bind_ok _ _ _ _ _ Hstore), (bind_ok _ _ _ _ _ Hrest).
      rewrite (next_keys_succ w w1 _ Hu Hd). reflexivity. }
    rewrite Hrun. cbn [fst snd length].
    rewrite (next_keys_succ w w1 _ Hu Hd).
    split; [reflexivity |]. split; [| split].
    + rewrite Hc2. f_equal. lia.
    + exists (input :: inputs). split; [now constructor |].
      rewrite Hin2, <- app_assoc. reflexivity.
    + rewrite Hout2, <- app_assoc. reflexivity.
Qed.

(** When every call of a run has returned, every value was one the
    client can encode. *)
Lemma store_each_ok_storable (self : Cache) (values : list Scalar) :
  _redis self = Redis ->
  forall (w : World) (ks : list pyval),
  fst (store_each repr_str self values w) = Ok ks ->
  forallb storable values = true.
Proof.
  intros Hself.
  induction values as [| v values IH]; intros w ks Hks; [reflexivity |].
  cbn [store_each] in Hks. unfold bind at 1 in Hks.
  destruct (store repr_str self v w) as [[k | e] w1] eqn:Hstore; [| discriminate].
  unfold bind at 1 in Hks.
  destruct (store_each repr_str self values w1) as [[ks' | e] w2] eqn:Hrest;
    [| discriminate].
  cbn [forallb]. apply andb_true_iff. split.
  - apply (store_ok_storable self v w k Hself). now rewrite Hstore.
  - apply (IH w1 ks'). now rewrite Hrest.
Qed.

(** ** The write path *)


(** C2 (amended). On a cache with a [Redis] handle whose database can
    record one more call (the counter key absent or an integer below the
    64-bit maximum, each history key absent or a list), for a value the
    client can encode, [store] does, in this order: (a) increment the
    counter under the qualified name of the method; (b) set the value
    under a freshly generated identifier, the text of the [uuid4] made of
    the next block of random bytes; (c) append the display form of the
    positional arguments to the input history; (d) append the identifier
    to the output history; and it returns the identifier. *)
Theorem store_effects_in_order (self : Cache) (data : Scalar) (w : World) (bytes : string) :
  _redis self = Redis ->
  store_ready (db w) = true ->
  encode data = Ok bytes ->
  let key := str_uuid (uuid4_of (urandom w (draws w))) in
  let n := default 0 (counter_value (db w) "Cache.store") in
  let ins := default [] (list_value (db w) "Cache.store:inputs") in
  let outs := default [] (list_value (db w) "Cache.store:outputs") in
  let w' := snd (store repr_str self data w) in
  exists input,
    str_args repr_str [data] = Ok input
    /\ fst (store repr_str self data w) = Ok (PVal (VText key))
    /\ cmds w' = cmds w ++ commands_write_first key bytes input
    /\ db w'
       = <["Cache.store:outputs" := RList (outs ++ [key])]>
           (<["Cache.store:inputs" := RList (ins ++ [input])]>
              (<[key := RStr bytes]>
                 (<["Cache.store" := RStr (repr_int (n + 1))]> (db w))))
    /\ draws w' = S (draws w)
    /\ urandom w' = urandom w.
Proof.
  intros Hself Hready Henc key n ins outs w'.
  destruct (store_ready_inv _ Hready) as (n0 & ins0 & outs0 & Hc & Hn & Hin & Hout).
  destruct (str_args_storable data bytes Henc) as [input Hdisp].
  exists input. split; [exact Hdisp |].
  subst w' n ins outs key. rewrite Hc, Hin, Hout. cbn [default].
  rewrite (store_spec self data w n0 ins0 outs0 bytes input Hself Hc Hn Hin Hout
             Henc Hdisp).
  cbn [fst snd db cmds draws urandom]. auto.
Qed.

(** At the top of its range the counter cannot be incremented: the call
    fails before anything is stored. *)
Lemma store_overflow (self : Cache) (data : Scalar) (w : World) (n : Z) :
  _redis self = Redis ->
  counter_value (db w) "Cache.store" = Some n -> INT64_MAX <= n ->
  fst (store repr_str self data w) = Raise ResponseError.
Proof.
  intros Hself Hc Hn.
  unfold store, store_decorated, count_calls, call_history, store_method.
  cbn [call __qualname__ binds_self existsb]. rewrite Hself. cbn [isinstance_Redis].
  unfold bind at 1. unfold bind at 1.
  unfold redis_incr, execute_command, server_incr.
  unfold counter_value in Hc.
  destruct (db w !! "Cache.store") as [[b | l |] |]; try discriminate.
  - rewrite Hc. apply Z.ltb_ge in Hn. now rewrite Hn.
  - injection Hc as <-. unfold INT64_MAX in Hn. lia.
Qed.

Lemma store_each_overflow (self : Cache) (values : list Scalar) :
  _redis self = Redis ->
  forallb storable values = true ->
  forall (w : World) (n : Z) (ins outs : list string),
  counter_value (db w) "Cache.store" = Some n ->
  INT64_MAX < n + Z.of_nat (length values) ->
  list_value (db w) "Cache.store:inputs" = Some ins ->
  list_value (db w) "Cache.store:outputs" = Some outs ->
  fst (store_each repr_str self values w) = Raise ResponseError.
Proof.
  intros Hself.
  induction values as [| v values IH]; intros Hstorable w n ins outs Hc Hn Hin Hout.
  - pose proof (counter_value_bounds _ _ _ Hc). cbn [length] in Hn. lia.
  - cbn [store_each]. cbn [forallb] in Hstorable.
    apply andb_true_iff in Hstorable as [Hv Hrest'].
    destruct (Z.lt_ge_cases n INT64_MAX) as [Hlt | Hge].
    + destruct (storable_encode v Hv) as [bytes Henc].
      destruct (str_args_storable v bytes Henc) as [input Hdisp].
      destruct (store_tracks self v w n ins outs bytes input Hself Hc Hlt Hin Hout
                  Henc Hdisp)
        as (Hr & Hc1 & Hin1 & Hout1 & _).
      destruct (store repr_str self v w) as [r w1] eqn:Hstore.
      cbn [fst snd] in Hr, Hc1, Hin1, Hout1. subst r.
      rewrite (bind_ok _ _ _ _ _ Hstore).
      cbn [length] in Hn.
      specialize (IH Hrest' w1 (n + 1) _ _ Hc1 ltac:(lia) Hin1 Hout1).
      destruct (store_each repr_str self values w1) as [r2 w2] eqn:Hrest.
      cbn [fst] in IH. subst r2.
      now rewrite (bind_raise _ _ _ _ _ Hrest).
    + pose proof (store_overflow self v w n Hself Hc Hge) as Hr.
      destruct (store repr_str self v w) as [r w1] eqn:Hstore.
      cbn [fst] in Hr. subst r.
      now rewrite (bind_raise _ _ _ _ _ Hstore).
Qed.

(** C3. After initialization, for every N, N successive calls of [store]
    succeed as long as N is within the range of the 64-bit counter and
    every value is one the client can encode; and whenever they have all
    succeeded the counter equals N, the input history and the output
    history have length N each and are in call order, and the i-th input
    is the display form of the argument of the i-th call while the i-th
    output is the identifier that call returned. *)
Theorem store_each_from_init (self : Cache) (values : list Scalar) (w : World) :
  fst (Cache_init w) = Ok self ->
  let w1 := snd (Cache_init w) in
  let keys := next_keys w1 (length values) in
  let w2 := snd (store_each repr_str self values w1) in
  (Z.of_nat (length values) <= INT64_MAX ->
   forallb storable values = true ->
   fst (store_each repr_str self values w1) = Ok (map (fun k => PVal (VText k)) keys))
  /\ (forall ks,
        fst (store_each repr_str self values w1) = Ok ks ->
        ks = map (fun k => PVal (VText k)) keys
        /\ counter_value (db w2) "Cache.store" = Some (Z.of_nat (length values))
        /\ read_count (db w2 !! "Cache.store") = Ok (Z.of_nat (length values))
        /\ exists ins outs,
             list_value (db w2) "Cache.store:inputs" = Some ins
             /\ list_value (db w2) "Cache.store:outputs" = Some outs
             /\ length ins = length values
             /\ length outs = length values
             /\ Forall2 (fun v input => str_args repr_str [v] = Ok input) values ins
             /\ outs = keys
             /\ (forall i v k, values !! i = Some v -> keys !! i = Some k ->
                   exists input,
                     str_args repr_str [v] = Ok input
                     /\ ins !! i = Some input /\ outs !! i = Some k)).
Proof.
  intros Hinit w1 keys w2.
  assert (Hself : _redis self = Redis) by (cbn in Hinit; now injection Hinit as <-).
  assert (Hc0 : counter_value (db w1) "Cache.store" = Some 0) by reflexivity.
  assert (Hin0 : list_value (db w1) "Cache.store:inputs" = Some []) by reflexivity.
  assert (Hout0 : list_value (db w1) "Cache.store:outputs" = Some []) by reflexivity.
  split.
  - intros Hlen Hstorable.
    now destruct (store_each_spec self values Hself Hstorable w1 0 [] []
                    Hc0 ltac:(lia) Hin0 Hout0).
  - intros ks Hks.
    pose proof (store_each_ok_storable self values Hself w1 ks Hks) as Hstorable.
    destruct (Z.le_gt_cases (Z.of_nat (length values)) INT64_MAX) as [Hlen | Hbig].
    + destruct (store_each_spec self values Hself Hstorable w1 0 [] []
                  Hc0 ltac:(lia) Hin0 Hout0)
        as (Hr & Hc & (ins & Hall & Hin) & Hout).
      fold w2 in Hc, Hin, Hout. cbn [app] in Hin, Hout. rewrite Z.add_0_l in Hc.
      split; [rewrite Hr in Hks; now injection Hks as <- |]. split; [exact Hc |].
      split; [exact (read_count_of_counter _ _ _ Hc) |].
      exists ins, keys. split; [exact Hin |]. split; [exact Hout |].
      split; [symmetry; exact (Forall2_length _ _ _ Hall) |].
      split; [unfold keys, next_keys; now rewrite length_map, length_seq |].
      split; [exact Hall |]. split; [reflexivity |].
      intros i v k Hv Hk.
      destruct (Forall2_lookup_l _ _ _ _ _ Hall Hv) as (input & Hi & Hdisp).
      exists input. auto.
    + rewrite (store_each_overflow self values Hself Hstorable w1 0 [] []
                 Hc0 ltac:(lia) Hin0 Hout0)
        in Hks.
      discriminate Hks.
Qed.

(** C9. On a cache whose [_redis] is not a [Redis] instance, both
    instrumentation steps are skipped: [store] behaves exactly as the
    undecorated method, no command reaches the server and the database
    (counter and histories included) is unchanged; the [set] of the
    handle is still called and decides the result: the identifier when it
    returns, its exception when it raises, [AttributeError] when the
    handle has no [set]. *)
Theorem store_uninstrumented (self : Cache) (o : foreign) (data : Scalar) (w : World) :
  _redis self = NotRedis o ->
  let key := next_key w in
  let w' := snd (store repr_str self data w) in
  store repr_str self data w = call store_method self [data] [] w
  /\ db w' = db w
  /\ cmds w' = cmds w
  /\ fst (store repr_str self data w)
     = match foreign_set o with
       | Some set =>
           match set key data with
           | Ok _ => Ok (PVal (VText key))
           | Raise e => Raise e
           end
       | None => Raise AttributeError
       end.
Proof.
  intros Hself key w'. subst w' key.
  unfold store, store_decorated, count_calls, call_history, store_method.
  cbn [call __qualname__ binds_self existsb]. rewrite Hself. cbn [isinstance_Redis].
  unfold bind, ret, lift, uuid4, handle_set, raise, next_key.
  cbn [bind_data].
  destruct (foreign_set o) as [set |]; [| now cbn].
  unfold lift. destruct (set _ data) as [[] | e]; now cbn.
Qed.

End Properties.

(** ** Worked instances *)

(** The scenario of the specification: two values stored after
    initialization, read back with the typed getters, then replayed. *)
Example scenario :
  let w1 := snd (Cache_init world0) in
  let id1 := next_key w1 in
  let w2 := snd (store quoted cache0 (VText "foo") w1) in
  let id2 := next_key w2 in
  let w3 := snd (store quoted cache0 (VInt 123) w2) in
  fst (get_str cache0 id1 w3) = Ok (PVal (VText "foo"))
  /\ fst (get_int cache0 id2 w3) = Ok (PVal (VInt 123))
  /\ db w3 !! "Cache.store" = Some (RStr "2")
  /\ db w3 !! "Cache.store:inputs" = Some (RList ["('foo',)"; "(123,)"])
  /\ db w3 !! "Cache.store:outputs" = Some (RList [id1; id2])
  /\ stdout (snd (replay (BoundMethod (Instance cache0) "Cache.store") w3))
     = ["Cache.store was called 2 times:";
        "Cache.store(*('foo',)) -> b'00000000-0000-4000-8000-00000000004d'";
        "Cache.store(*(123,)) -> b'00000000-0000-4000-8000-0000000f4290'"].
Proof. vm_compute. repeat split. Qed.

(** A call that fails in the wrapped method (here for want of an
    argument) has been counted but leaves no trace in the histories. *)
Example store_without_argument :
  let w1 := snd (call (store_decorated quoted) cache0 [] [] world0) in
  fst (call (store_decorated quoted) cache0 [] [] world0) = Raise TypeError
  /\ db w1 !! "Cache.store" = Some (RStr "1")
  /\ db w1 !! "Cache.store:inputs" = None
  /\ db w1 !! "Cache.store:outputs" = None.
Proof. vm_compute. repeat split. Qed.

(** A call that passes a keyword named [self] is refused before it is
    counted. *)
Example store_self_keyword :
  call (store_decorated quoted) cache0 [] [("self", VInt 1)] world0
  = (Raise TypeError, world0).
Proof. reflexivity. Qed.



(** The order the specification lists (input pushed before the write) is
    not the order of the commands [store] sends. *)
Lemma store_order_not_input_first :
  cmds (snd (store quoted cache0 (VInt 7) world0))
  <> cmds world0 ++ commands_input_first (next_key world0) "7" "(7,)".
Proof. vm_compute. discriminate. Qed.

Lemma store_effects_in_order_witness :
  _redis cache0 = Redis
  /\ store_ready (db world0) = true
  /\ encode (VInt 7) = Ok "7"
  /\ fst (store quoted cache0 (VInt 7) world0)
     = Ok (PVal (VText "00000000-0000-4000-8000-00000000004d"))
  /\ cmds (snd (store quoted cache0 (VInt 7) world0))
     = [INCR "Cache.store";
        SET "00000000-0000-4000-8000-00000000004d" "7";
        RPUSH "Cache.store:inputs" "(7,)";
        RPUSH "Cache.store:outputs" "00000000-0000-4000-8000-00000000004d"].
Proof.
  split; [reflexivity |]. split; [reflexivity |]. split; [reflexivity |].
  destruct (store_effects_in_order quoted cache0 (VInt 7) world0 "7"
              eq_refl eq_refl eq_refl) as (input & Hdisp & Hres & Hcmds & _).
  split; [exact Hres |].
  assert (Hinput : str_args quoted [VInt 7] = Ok "(7,)") by reflexivity.
  rewrite Hinput in Hdisp. injection Hdisp as <-. exact Hcmds.
Defined.

Lemma store_each_from_init_witness :
  fst (Cache_init world0) = Ok cache0
  /\ Z.of_nat (length [VText "foo"; VInt 123]) <= INT64_MAX
  /\ forallb storable [VText "foo"; VInt 123] = true
  /\ fst (store_each quoted cache0 [VText "foo"; VInt 123] (snd (Cache_init world0)))
     = Ok (map (fun k => PVal (VText k)) (next_keys (snd (Cache_init world0)) 2))
  /\ counter_value
       (db (snd (store_each quoted cache0 [VText "foo"; VInt 123]
                   (snd (Cache_init world0)))))
       "Cache.store" = Some 2.
Proof.
  split; [reflexivity |].
  assert (Hlen : Z.of_nat (length [VText "foo"; VInt 123]) <= INT64_MAX)
    by (vm_compute; discriminate).
  split; [exact Hlen |]. split; [reflexivity |].
  pose proof (store_each_from_init quoted cache0 [VText "foo"; VInt 123] world0
                eq_refl) as [Hruns Hafter].
  split; [exact (Hruns Hlen eq_refl) |].
  exact (proj1 (proj2 (Hafter _ (Hruns Hlen eq_refl)))).
Defined.

Lemma get_contract_witness :
  _redis cache0 = Redis
  /\ db skewed !! "greeting" = Some (RStr "foo")
  /\ fst (get cache0 "greeting" None skewed) = Ok (PVal (VBytes "foo"))
  /\ db world0 !! "greeting" = None
  /\ fst (get cache0 "greeting" None world0) = Ok PNone.
Proof.
  split; [reflexivity |]. split; [reflexivity |].
  split;
    [exact (proj1 (proj1 (get_contract cache0 "greeting" skewed int_lambda eq_refl)
                     "foo" eq_refl)) |].
  split; [reflexivity |].
  exact (proj1 (proj2 (get_contract cache0 "greeting" world0 int_lambda eq_refl)
                  eq_refl)).
Defined.

Lemma digit_run_ones (n : nat) : digit_run (ones (S n)) (repeat 1 (S n)).
Proof.
  induction n as [| n IH]; [now apply run_last |].
  change (ones (S (S n))) with (String "1" (ones (S n))).
  change (repeat 1 (S (S n))) with (1 :: repeat 1 (S n)).
  now apply run_next.
Qed.

Lemma digit_count_ones (n : nat) : digit_count (ones n) = n.
Proof. induction n as [| n IH]; [reflexivity |]. cbn [ones digit_count]. cbn. now rewrite IH. Qed.

Lemma append_nil_r (s : string) : s +:+ EmptyString = s.
Proof.
  induction s as [| c s IH]; [apply append_nil_l |].
  rewrite append_cons. now rewrite IH.
Qed.

Lemma base10_literal_ones (n : nat) : exists z, base10_literal (ones (S n)) z.
Proof.
  exists (place_value (repeat 1 (S n))).
  pose proof (literal EmptyString EmptyString (ones (S n)) EmptyString
                (repeat 1 (S n)) _ eq_refl (signed_none _) (digit_run_ones n) eq_refl)
    as H.
  now rewrite !append_nil_l, append_nil_r in H.
Qed.

Lemma no_literal_foo (z : Z) : ~ base10_literal "foo" z.
Proof. intros H. apply parse_literal_complete in H. discriminate H. Qed.

Lemma literal_five : base10_literal " 5 " 5.
Proof.
  exact (literal " " EmptyString "5" " " [5] 5 eq_refl (signed_none 5)
           (run_last "5" 5 eq_refl) eq_refl).
Qed.

Lemma get_int_contract_witness :
  _redis cache0 = Redis
  /\ db skewed !! "Cache.store" = Some (RStr " 5 ")
  /\ base10_literal " 5 " 5
  /\ (digit_count " 5 " <= MAX_STR_DIGITS)%nat
  /\ fst (get_int cache0 "Cache.store" skewed) = Ok (PVal (VInt 5))
  /\ db skewed !! "greeting" = Some (RStr "foo")
  /\ (forall z, ~ base10_literal "foo" z)
  /\ fst (get_int cache0 "greeting" skewed) = Raise ValueError.
Proof.
  split; [reflexivity |]. split; [reflexivity |]. split; [exact literal_five |].
  assert (Hlen : (digit_count " 5 " <= MAX_STR_DIGITS)%nat)
    by (vm_compute; lia).
  split; [exact Hlen |].
  split;
    [exact (proj1 (get_int_contract cache0 "Cache.store" skewed " 5 " eq_refl eq_refl)
              5 literal_five Hlen) |].
  split; [reflexivity |]. split; [exact no_literal_foo |].
  exact (proj1 (proj2 (get_int_contract cache0 "greeting" skewed "foo" eq_refl eq_refl))
           no_literal_foo).
Defined.

(** Bytes that are a base-10 integer literal, 4301 times the digit 1,
    which [get_int] nevertheless refuses. *)
Lemma get_int_refuses_long_literal :
  _redis cache0 = Redis
  /\ db overlong !! "Cache.store" = Some (RStr (ones (S MAX_STR_DIGITS)))
  /\ (exists z, base10_literal (ones (S MAX_STR_DIGITS)) z)
  /\ fst (get_int cache0 "Cache.store" overlong) = Raise ValueError.
Proof.
  split; [reflexivity |]. split; [reflexivity |].
  split; [exact (base10_literal_ones MAX_STR_DIGITS) |].
  unfold get_int.
  rewrite (get_present cache0 "Cache.store" _ overlong (ones (S MAX_STR_DIGITS))
             eq_refl eq_refl).
  cbn [fst]. unfold int_lambda, py_int.
  rewrite int_of_bytes_over; [reflexivity |].
  rewrite digit_count_ones. lia.
Qed.

Lemma replay_noop_witness :
  is_bound_reference NoneRef = false
  /\ replay NoneRef skewed = (Ok tt, skewed)
  /\ has_store_connection
       (BoundMethod (Instance (mkCache (NotRedis dummy))) "Cache.store") = false
  /\ replay (BoundMethod (Instance (mkCache (NotRedis dummy))) "Cache.store") skewed
     = (Ok tt, skewed).
Proof.
  split; [reflexivity |].
  split; [exact (replay_noop NoneRef skewed (or_introl eq_refl)) |].
  split; [reflexivity |].
  exact (replay_noop (BoundMethod (Instance (mkCache (NotRedis dummy))) "Cache.store")
           skewed (or_intror eq_refl)).
Defined.

Lemma replay_prints_witness :
  getattr_redis (Instance cache0) = Some Redis
  /\ read_count (db skewed !! "Cache.store") = Ok 5
  /\ list_value (db skewed) "Cache.store:inputs" = Some ["(1,)"; "(2,)"; "(3,)"]
  /\ list_value (db skewed) "Cache.store:outputs" = Some ["a"; "b"]
  /\ stdout (snd (replay (BoundMethod (Instance cache0) "Cache.store") skewed))
     = ["Cache.store was called 5 times:";
        "Cache.store(*(1,)) -> b'a'";
        "Cache.store(*(2,)) -> b'b'"]
  /\ stdout (snd (replay (BoundMethod (Instance cache0) "Cache.store") world0))
     = ["Cache.store was called 0 times:"].
Proof.
  split; [reflexivity |]. split; [reflexivity |].
  split; [reflexivity |]. split; [reflexivity |].
  split.
  - exact (proj1 (proj2 (proj1 (replay_prints (Instance cache0) "Cache.store" skewed
                                  eq_refl)
                           5 ["(1,)"; "(2,)"; "(3,)"] ["a"; "b"]
                           eq_refl eq_refl eq_refl eq_refl))).
  - exact (proj2 (proj2 (replay_prints (Instance cache0) "Cache.store" world0 eq_refl)
                    eq_refl eq_refl eq_refl)).
Defined.

(** The flush that initialization requests is not the synchronous one. *)
Lemma init_not_synchronous :
  cmds (snd (Cache_init world0)) <> cmds world0 ++ [FLUSHDB false].
Proof. vm_compute. discriminate. Qed.

Lemma store_uninstrumented_witness :
  _redis (mkCache (NotRedis dummy)) = NotRedis dummy
  /\ db (snd (store quoted (mkCache (NotRedis dummy)) (VInt 7) skewed)) = db skewed
  /\ fst (store quoted (mkCache (NotRedis dummy)) (VInt 7) skewed)
     = Ok (PVal (VText (next_key skewed))).
Proof.
  split; [reflexivity |].
  pose proof (store_uninstrumented quoted (mkCache (NotRedis dummy)) dummy (VInt 7)
                skewed eq_refl) as (_ & Hdb & _ & Hres).
  split; [exact Hdb | exact Hres].
Defined.

Lemma replay_count_from_counter_key_witness :
  getattr_redis (Instance cache0) = Some Redis
  /\ read_count (db skewed !! "Cache.store") = Ok 5
  /\ exists lines,
       stdout (snd (replay (BoundMethod (Instance cache0) "Cache.store") skewed))
       = stdout skewed ++ "Cache.store was called 5 times:" :: lines.
Proof.
  split; [reflexivity |]. split; [reflexivity |].
  exact (proj1 replay_count_from_counter_key (Instance cache0) "Cache.store"
           skewed 5 eq_refl eq_refl).
Defined.

(** * Further properties *)

(** ** The decorators on any method *)

Lemma inputs_key_ne_outputs_key (name : string) :
  name +:+ ":inputs" <> name +:+ ":outputs".
Proof. intros H. apply append_inv_l in H. discriminate H. Qed.

Lemma count_calls_run (m : method) (self : Cache)
  (args : list Scalar) (kwargs : list (string * Scalar)) (w : World) (n : Z) :
  _redis self = Redis ->
  binds_self kwargs = false ->
  counter_value (db w) (__qualname__ m) = Some n -> n < INT64_MAX ->
  call (count_calls m) self args kwargs w
  = call m self args kwargs (after_incr (__qualname__ m) n w).
Proof.
  intros Hself Hkw Hc Hn. unfold count_calls. cbn [call]. rewrite Hself, Hkw.
  cbn [isinstance_Redis]. unfold bind, redis_incr, execute_command, ret.
  now rewrite (server_incr_ok _ _ _ Hc Hn).
Qed.

(** X1. [count_calls] on any method, with a [Redis] handle.  A call that
    passes a keyword named [self] is refused with [TypeError] before the
    wrapper runs: nothing is counted and the method is not run.  For any
    other call the counter under the name of the method is incremented
    first and the method then runs in the world so obtained, whatever it
    goes on to do; when the counter cannot be incremented (it is not an
    integer, or it is at the top of the 64-bit range) the call fails with
    the store error and the method is not run at all. *)
Theorem count_calls_counts_first (m : method) (self : Cache)
  (args : list Scalar) (kwargs : list (string * Scalar)) (w : World) :
  _redis self = Redis ->
  (binds_self kwargs = true ->
   call (count_calls m) self args kwargs w = (Raise TypeError, w))
  /\ (binds_self kwargs = false ->
      (forall n, counter_value (db w) (__qualname__ m) = Some n -> n < INT64_MAX ->
         call (count_calls m) self args kwargs w
         = call m self args kwargs (after_incr (__qualname__ m) n w))
      /\ (counter_value (db w) (__qualname__ m) = None
          \/ counter_value (db w) (__qualname__ m) = Some INT64_MAX ->
          call (count_calls m) self args kwargs w
          = (Raise ResponseError, after_refusal (INCR (__qualname__ m)) w))).
Proof.
  intros Hself. split.
  - intros Hkw. unfold count_calls. cbn [call]. now rewrite Hkw.
  - intros Hkw. split.
    + intros n Hc Hn. now apply count_calls_run.
    + unfold count_calls. cbn [call]. rewrite Hself, Hkw.
      cbn [isinstance_Redis]. unfold bind, redis_incr, execute_command, ret.
      unfold counter_value, server_incr, after_refusal.
      destruct (db w !! __qualname__ m) as [[b | l |] |]; try reflexivity.
      * intros [-> | ->]; reflexivity.
      * intros [H | H]; discriminate H.
Qed.

Section MoreProperties.

Variable repr_str : string -> string.

(** X2. [call_history] on any method, with a [Redis] handle.  A call
    that passes a keyword named [self] is refused with [TypeError] before
    the wrapper runs.  Otherwise the method runs first.  When it raises,
    nothing is recorded and the exception goes through.  When it returns
    a scalar the client can encode, and the positional arguments have a
    display form, that form is appended to the input history and then the
    bytes of the result to the output history.  When it returns [None],
    the input is appended, the client then refuses to encode [None], and
    the call fails with the output history untouched: the histories end up
    with different lengths; the same happens, with [ValueError], when the
    result cannot be encoded.  And when the positional arguments have no
    display form (one of them is an [int] over the digit limit), the call
    fails with that error after the method has run, and nothing is
    recorded. *)
Theorem call_history_outcomes (m : method) (self : Cache)
  (args : list Scalar) (kwargs : list (string * Scalar)) (w w1 : World) :
  _redis self = Redis ->
  let input_key := __qualname__ m +:+ ":inputs" in
  let output_key := __qualname__ m +:+ ":outputs" in
  let w2 := snd (call (call_history repr_str m) self args kwargs w) in
  (binds_self kwargs = true ->
   call (call_history repr_str m) self args kwargs w = (Raise TypeError, w))
  /\ (binds_self kwargs = false ->
      (forall e, call m self args kwargs w = (Raise e, w1) ->
         call (call_history repr_str m) self args kwargs w = (Raise e, w1))
      /\ (forall v ins outs input bytes,
            call m self args kwargs w = (Ok (PVal v), w1) ->
            list_value (db w1) input_key = Some ins ->
            list_value (db w1) output_key = Some outs ->
            str_args repr_str args = Ok input ->
            encode v = Ok bytes ->
            fst (call (call_history repr_str m) self args kwargs w) = Ok (PVal v)
            /\ db w2 = <[output_key := RList (outs ++ [bytes])]>
                         (<[input_key := RList (ins ++ [input])]> (db w1)))
      /\ (forall ins input,
            call m self args kwargs w = (Ok PNone, w1) ->
            list_value (db w1) input_key = Some ins ->
            str_args repr_str args = Ok input ->
            fst (call (call_history repr_str m) self args kwargs w)
            = Raise (OtherError "DataError")
            /\ db w2 = <[input_key := RList (ins ++ [input])]> (db w1))
      /\ (forall v ins input e,
            call m self args kwargs w = (Ok (PVal v), w1) ->
            list_value (db w1) input_key = Some ins ->
            str_args repr_str args = Ok input ->
            encode v = Raise e ->
            fst (call (call_history repr_str m) self args kwargs w) = Raise e
            /\ db w2 = <[input_key := RList (ins ++ [input])]> (db w1))
      /\ (forall r e,
            call m self args kwargs w = (Ok r, w1) ->
            str_args repr_str args = Raise e ->
            call (call_history repr_str m) self args kwargs w = (Raise e, w1))).
Proof.
  intros Hself input_key output_key w2. subst w2.
  unfold call_history. cbn [call]. rewrite Hself. cbn [isinstance_Redis].
  fold input_key output_key.
  split; [now intros -> |]. intros ->.
  split; [| split; [| split; [| split]]].
  - intros e Hm. now rewrite (bind_raise _ _ _ _ _ Hm).
  - intros v ins outs input bytes Hm Hin Hout Hdisp Henc.
    rewrite (bind_ok _ _ _ _ _ Hm).
    unfold bind, lift, redis_rpush, ret. rewrite Hdisp, Henc. cbn [encode].
    unfold execute_command.
    rewrite (server_rpush_ok _ _ _ ins Hin). cbn [db cmds stdout urandom draws].
    rewrite (server_rpush_ok _ _ _ outs)
      by (rewrite list_value_insert_ne
            by apply inputs_key_ne_outputs_key; exact Hout).
    now cbn.
  - intros ins input Hm Hin Hdisp. rewrite (bind_ok _ _ _ _ _ Hm).
    unfold bind, lift, redis_rpush, ret, raise. rewrite Hdisp. cbn [encode].
    unfold execute_command.
    rewrite (server_rpush_ok _ _ _ ins Hin). now cbn.
  - intros v ins input e Hm Hin Hdisp Henc. rewrite (bind_ok _ _ _ _ _ Hm).
    unfold bind, lift, redis_rpush, ret, raise. rewrite Hdisp, Henc. cbn [encode].
    unfold execute_command.
    rewrite (server_rpush_ok _ _ _ ins Hin). now cbn.
  - intros r e Hm Hdisp. rewrite (bind_ok _ _ _ _ _ Hm).
    unfold bind, lift. now rewrite Hdisp.
Qed.

(** The decorated [store] on any arguments that bind: the same four steps
    as for one positional argument, the input recorded being the display
    form of the positional arguments alone. *)
Lemma store_call_spec (self : Cache) (args : list Scalar)
  (kwargs : list (string * Scalar)) (data : Scalar) (w : World) (n : Z)
  (ins outs : list string) (bytes input : string) :
  _redis self = Redis ->
  binds_self kwargs = false ->
  bind_data args kwargs = Ok data ->
  counter_value (db w) "Cache.store" = Some n -> n < INT64_MAX ->
  list_value (db w) "Cache.store:inputs" = Some ins ->
  list_value (db w) "Cache.store:outputs" = Some outs ->
  encode data = Ok bytes ->
  str_args repr_str args = Ok input ->
  call (store_decorated repr_str) self args kwargs w
  = (Ok (PVal (VText (next_key w))),
     mkWorld
       (<["Cache.store:outputs" := RList (outs ++ [next_key w])]>
          (<["Cache.store:inputs" := RList (ins ++ [input])]>
             (<[next_key w := RStr bytes]>
                (<["Cache.store" := RStr (repr_int (n + 1))]> (db w)))))
       (cmds w ++ [INCR "Cache.store"; SET (next_key w) bytes;
                   RPUSH "Cache.store:inputs" input;
                   RPUSH "Cache.store:outputs" (next_key w)])
       (stdout w) (urandom w) (S (draws w))).
Proof.
  intros Hself Hkw Hbind Hc Hn Hin Hout Henc Hdisp.
  destruct (str_uuid_fresh (uuid4_of (urandom w (draws w)))) as (Hk1 & Hk2 & Hk3).
  fold (next_key w) in Hk1, Hk2, Hk3.
  unfold store_decorated, count_calls, call_history, store_method.
  cbn [call __qualname__]. rewrite Hself, Hkw, Hbind. cbn [isinstance_Redis].
  unfold bind, redis_incr, execute_command.
  rewrite (server_incr_ok _ _ _ Hc Hn).
  unfold ret, lift. unfold uuid4, handle_set, redis_set.
  rewrite Henc, Hdisp. unfold execute_command, server_set.
  cbn [db cmds stdout urandom draws]. fold (next_key w).
  change ("Cache.store" +:+ ":inputs") with "Cache.store:inputs".
  change ("Cache.store" +:+ ":outputs") with "Cache.store:outputs".
  unfold redis_rpush. cbn [encode]. unfold execute_command.
  cbn [db cmds stdout urandom draws].
  rewrite (server_rpush_ok _ _ _ ins)
    by (rewrite !list_value_insert_ne by (auto; discriminate); exact Hin).
  cbn [db cmds stdout urandom draws].
  rewrite (server_rpush_ok _ _ _ outs)
    by (rewrite !list_value_insert_ne by (auto; discriminate); exact Hout).
  cbn [db cmds stdout urandom draws].
  rewrite <- !app_assoc. reflexivity.
Qed.

(** X3. A call of [store] whose arguments do not bind (no value, two
    values, an unknown keyword) raises [TypeError] after it has been
    counted: the counter is incremented, and nothing else changes: no
    identifier is drawn, nothing is stored, both histories stay as they
    were.  The one exception is a keyword named [self]: that call is
    refused with [TypeError] by the outer wrapper itself, before it is
    counted, and nothing changes at all. *)
Theorem store_counts_failed_call (self : Cache) (args : list Scalar)
  (kwargs : list (string * Scalar)) (w : World) (n : Z) (e : exn) :
  _redis self = Redis ->
  counter_value (db w) "Cache.store" = Some n -> n < INT64_MAX ->
  let w' := snd (call (store_decorated repr_str) self args kwargs w) in
  (binds_self kwargs = false ->
   bind_data args kwargs = Raise e ->
   call (store_decorated repr_str) self args kwargs w
   = (Raise TypeError, after_incr "Cache.store" n w)
   /\ counter_value (db w') "Cache.store" = Some (n + 1)
   /\ list_value (db w') "Cache.store:inputs" = list_value (db w) "Cache.store:inputs"
   /\ list_value (db w') "Cache.store:outputs" = list_value (db w) "Cache.store:outputs"
   /\ draws w' = draws w)
  /\ (binds_self kwargs = true ->
      call (store_decorated repr_str) self args kwargs w = (Raise TypeError, w)).
Proof.
  intros Hself Hc Hn w'. split.
  - intros Hkw Hbind.
    assert (He : e = TypeError).
    { unfold bind_data in Hbind.
      destruct args as [| a [| a' args]]; destruct kwargs as [| [k v] [| kv kwargs]];
        try (now injection Hbind as <-); try discriminate Hbind.
      destruct (String.eqb k "data"); [discriminate Hbind | now injection Hbind as <-]. }
    subst e.
    assert (Hrun : call (store_decorated repr_str) self args kwargs w
                   = (Raise TypeError, after_incr "Cache.store" n w)).
    { unfold store_decorated.
      rewrite (count_calls_run (call_history repr_str store_method) self args kwargs
                 w n Hself Hkw Hc Hn).
      unfold call_history, store_method. cbn [call __qualname__].
      rewrite Hkw. unfold bind at 1. unfold bind at 1. unfold lift.
      rewrite Hbind. reflexivity. }
    subst w'. rewrite Hrun. cbn [snd].
    pose proof (counter_value_bounds _ _ _ Hc) as [Hlo _].
    split; [reflexivity |]. unfold after_incr. cbn [db draws].
    split; [| split; [| split; [| reflexivity]]].
    + unfold counter_value. rewrite lookup_insert_eq.
      apply string2ll_repr_int. lia.
    + now rewrite list_value_insert_ne by discriminate.
    + now rewrite list_value_insert_ne by discriminate.
  - intros Hkw. unfold store_decorated, count_calls. cbn [call]. now rewrite Hkw.
Qed.

(** X4. When the value is passed by keyword, [store(data=v)], and is one
    the client can encode, the call is counted, the value stored and the
    identifier recorded as for a positional argument, but the input
    recorded is the display form of an empty tuple: the value itself is
    not in the input history. *)
Theorem store_by_keyword (self : Cache) (data : Scalar) (w : World) (bytes : string) :
  _redis self = Redis ->
  store_ready (db w) = true ->
  encode data = Ok bytes ->
  let key := next_key w in
  let n := default 0 (counter_value (db w) "Cache.store") in
  let ins := default [] (list_value (db w) "Cache.store:inputs") in
  let outs := default [] (list_value (db w) "Cache.store:outputs") in
  let w' := snd (call (store_decorated repr_str) self [] [("data", data)] w) in
  fst (call (store_decorated repr_str) self [] [("data", data)] w)
  = Ok (PVal (VText key))
  /\ db w' !! key = Some (RStr bytes)
  /\ counter_value (db w') "Cache.store" = Some (n + 1)
  /\ list_value (db w') "Cache.store:inputs" = Some (ins ++ ["()"])
  /\ list_value (db w') "Cache.store:outputs" = Some (outs ++ [key]).
Proof.
  intros Hself Hready Henc key n ins outs w'.
  destruct (store_ready_inv _ Hready) as (n0 & ins0 & outs0 & Hc & Hn & Hin & Hout).
  subst w' n ins outs. rewrite Hc, Hin, Hout. cbn [default].
  destruct (str_uuid_fresh (uuid4_of (urandom w (draws w)))) as (Hk1 & Hk2 & Hk3).
  fold (next_key w) in Hk1, Hk2, Hk3. fold key in Hk1, Hk2, Hk3.
  pose proof (counter_value_bounds _ _ _ Hc) as [Hlo _].
  rewrite (store_call_spec self [] [("data", data)] data w n0 ins0 outs0 bytes "()"
             Hself eq_refl eq_refl Hc Hn Hin Hout Henc eq_refl).
  cbn [fst snd db]. fold key.
  split; [reflexivity |]. split; [| split; [| split]].
  - rewrite !lookup_insert_ne by auto. now rewrite lookup_insert_eq.
  - unfold counter_value.
    rewrite !lookup_insert_ne by (auto; discriminate).
    rewrite lookup_insert_eq. apply string2ll_repr_int. unfold id. lia.
  - unfold list_value. rewrite lookup_insert_ne by discriminate.
    now rewrite lookup_insert_eq.
  - unfold list_value. now rewrite lookup_insert_eq.
Qed.

(** What one call of [store] leaves alone, whether it returns or the
    client refuses the value. *)
Lemma store_frame (self : Cache) (data : Scalar) (w : World) (n : Z)
  (ins outs : list string) (other : string) :
  _redis self = Redis ->
  counter_value (db w) "Cache.store" = Some n -> n < INT64_MAX ->
  list_value (db w) "Cache.store:inputs" = Some ins ->
  list_value (db w) "Cache.store:outputs" = Some outs ->
  other <> "Cache.store" ->
  other <> "Cache.store:inputs" ->
  other <> "Cache.store:outputs" ->
  other <> next_key w ->
  db (snd (store repr_str self data w)) !! other = db w !! other
  /\ stdout (snd (store repr_str self data w)) = stdout w
  /\ draws (snd (store repr_str self data w)) = S (draws w).
Proof.
  intros Hself Hc Hn Hin Hout H1 H2 H3 H4.
  destruct (encode data) as [bytes | e] eqn:Henc.
  - destruct (str_args_storable repr_str data bytes Henc) as [input Hdisp].
    rewrite (store_spec repr_str self data w n ins outs bytes input
               Hself Hc Hn Hin Hout Henc Hdisp).
    cbn [snd db stdout draws]. split; [| split; reflexivity].
    now rewrite !lookup_insert_ne by auto.
  - rewrite (store_refused repr_str self data w n e Hself Hc Hn Henc).
    cbn [snd db stdout draws]. split; [| split; reflexivity].
    now rewrite lookup_insert_ne by auto.
Qed.

(** X5. A successful call of [store] touches four keys only: the
    counter, the two histories and the new identifier.  Every other key
    holds what it held, nothing is printed and exactly one identifier is
    drawn. *)
Theorem store_changes_four_keys (self : Cache) (data : Scalar) (w : World)
  (other : string) :
  _redis self = Redis ->
  store_ready (db w) = true ->
  other <> "Cache.store" ->
  other <> "Cache.store:inputs" ->
  other <> "Cache.store:outputs" ->
  other <> next_key w ->
  let w' := snd (store repr_str self data w) in
  db w' !! other = db w !! other
  /\ stdout w' = stdout w
  /\ draws w' = S (draws w).
Proof.
  intros Hself Hready H1 H2 H3 H4 w'.
  destruct (store_ready_inv _ Hready) as (n & ins & outs & Hc & Hn & Hin & Hout).
  exact (store_frame self data w n ins outs other Hself Hc Hn Hin Hout H1 H2 H3 H4).
Qed.

(** Successive calls leave alone every key that is neither theirs nor one
    of the identifiers they draw, and print nothing. *)
Lemma store_each_frame (self : Cache) (values : list Scalar) :
  _redis self = Redis ->
  forallb storable values = true ->
  forall (w : World) (n : Z) (ins outs : list string) (other : string),
  counter_value (db w) "Cache.store" = Some n ->
  n + Z.of_nat (length values) <= INT64_MAX ->
  list_value (db w) "Cache.store:inputs" = Some ins ->
  list_value (db w) "Cache.store:outputs" = Some outs ->
  other <> "Cache.store" ->
  other <> "Cache.store:inputs" ->
  other <> "Cache.store:outputs" ->
  other ∉ next_keys w (length values) ->
  db (snd (store_each repr_str self values w)) !! other = db w !! other
  /\ stdout (snd (store_each repr_str self values w)) = stdout w.
Proof.
  intros Hself.
  induction values as [| v values IH];
    intros Hstorable w n ins outs other Hc Hn Hin Hout H1 H2 H3 Hfresh.
  - now cbn.
  - cbn [length] in Hn, Hfresh. cbn [forallb] in Hstorable.
    apply andb_true_iff in Hstorable as [Hv Hrest'].
    destruct (storable_encode v Hv) as [bytes Henc].
    destruct (str_args_storable repr_str v bytes Henc) as [input Hdisp].
    destruct (store_tracks repr_str self v w n ins outs bytes input Hself Hc
                ltac:(lia) Hin Hout Henc Hdisp)
      as (Hr & Hc1 & Hin1 & Hout1 & _ & Hu & Hd & _).
    destruct (store repr_str self v w) as [r w1] eqn:Hstore.
    cbn [fst snd] in Hr, Hc1, Hin1, Hout1, Hu, Hd. subst r.
    rewrite (next_keys_succ w w1 _ Hu Hd) in Hfresh.
    apply not_elem_of_cons in Hfresh as [Hhead Htail].
    destruct (store_frame self v w n ins outs other Hself Hc ltac:(lia) Hin Hout
                H1 H2 H3 Hhead) as (Hdb1 & Hout1' & _).
    rewrite Hstore in Hdb1, Hout1'. cbn [snd] in Hdb1, Hout1'.
    destruct (IH Hrest' w1 (n + 1) _ _ other Hc1 ltac:(lia) Hin1 Hout1 H1 H2 H3 Htail)
      as [Hdb2 Hout2].
    destruct (store_each_spec repr_str self values Hself Hrest' w1 (n + 1) _ _
                Hc1 ltac:(lia) Hin1 Hout1) as (Hr2 & _).
    destruct (store_each repr_str self values w1) as [r2 w2] eqn:Hrest.
    cbn [fst snd] in Hr2, Hdb2, Hout2. subst r2.
    cbn [store_each].
    rewrite (bind_ok _ _ _ _ _ Hstore), (bind_ok _ _ _ _ _ Hrest).
    cbn [ret snd]. split; congruence.
Qed.

Lemma store_each_keeps (self : Cache) (values : list Scalar) :
  _redis self = Redis ->
  forallb storable values = true ->
  forall (w : World) (n : Z) (ins outs : list string),
  counter_value (db w) "Cache.store" = Some n ->
  n + Z.of_nat (length values) <= INT64_MAX ->
  list_value (db w) "Cache.store:inputs" = Some ins ->
  list_value (db w) "Cache.store:outputs" = Some outs ->
  NoDup (next_keys w (length values)) ->
  forall i v k,
    values !! i = Some v -> next_keys w (length values) !! i = Some k ->
    exists bytes,
      encode v = Ok bytes
      /\ db (snd (store_each repr_str self values w)) !! k = Some (RStr bytes).
Proof.
  intros Hself.
  induction values as [| v0 values IH];
    intros Hstorable w n ins outs Hc Hn Hin Hout Hnodup i v k Hv Hk.
  - destruct i; discriminate Hv.
  - cbn [length] in Hn, Hnodup, Hk. cbn [forallb] in Hstorable.
    apply andb_true_iff in Hstorable as [Hv0 Hrest'].
    destruct (storable_encode v0 Hv0) as [bytes Henc].
    destruct (str_args_storable repr_str v0 bytes Henc) as [input Hdisp].
    destruct (store_tracks repr_str self v0 w n ins outs bytes input Hself Hc
                ltac:(lia) Hin Hout Henc Hdisp)
      as (Hr & Hc1 & Hin1 & Hout1 & Hkey & Hu & Hd & _).
    destruct (store repr_str self v0 w) as [r w1] eqn:Hstore.
    cbn [fst snd] in Hr, Hc1, Hin1, Hout1, Hkey, Hu, Hd. subst r.
    rewrite (next_keys_succ w w1 _ Hu Hd) in Hnodup, Hk.
    apply NoDup_cons in Hnodup as [Hhead Htail].
    destruct (store_each_spec repr_str self values Hself Hrest' w1 (n + 1) _ _
                Hc1 ltac:(lia) Hin1 Hout1) as (Hr2 & _).
    assert (Hrun : snd (store_each repr_str self (v0 :: values) w)
                   = snd (store_each repr_str self values w1)).
    { cbn [store_each]. rewrite (bind_ok _ _ _ _ _ Hstore).
      destruct (store_each repr_str self values w1) as [r2 w2] eqn:Hrest.
      cbn [fst] in Hr2. subst r2.
      now rewrite (bind_ok _ _ _ _ _ Hrest). }
    rewrite Hrun.
    destruct i as [| j].
    + cbn [lookup list_lookup] in Hv, Hk. injection Hv as <-. injection Hk as <-.
      destruct (str_uuid_fresh (uuid4_of (urandom w (draws w)))) as (Hk1 & Hk2 & Hk3).
      fold (next_key w) in Hk1, Hk2, Hk3.
      destruct (store_each_frame self values Hself Hrest' w1 (n + 1) _ _ (next_key w)
                  Hc1 ltac:(lia) Hin1 Hout1 Hk1 Hk2 Hk3 Hhead) as [Hdb _].
      exists bytes. split; [exact Henc |]. now rewrite Hdb.
    + cbn [lookup list_lookup] in Hv, Hk.
      exact (IH Hrest' w1 (n + 1) _ _ Hc1 ltac:(lia) Hin1 Hout1 Htail j v k Hv Hk).
Qed.

(** X6. After initialization and N successive calls of [store], on
    values the client can encode and with identifiers that are pairwise
    distinct, every value is still there: [get] on the identifier the
    i-th call returned gives the bytes of the i-th value. *)
Theorem store_each_retrievable (self : Cache) (values : list Scalar) (w : World) :
  fst (Cache_init w) = Ok self ->
  Z.of_nat (length values) <= INT64_MAX ->
  forallb storable values = true ->
  let w1 := snd (Cache_init w) in
  let keys := next_keys w1 (length values) in
  let w2 := snd (store_each repr_str self values w1) in
  NoDup keys ->
  fst (store_each repr_str self values w1) = Ok (map (fun k => PVal (VText k)) keys)
  /\ forall i v k,
       values !! i = Some v -> keys !! i = Some k ->
       exists bytes,
         encode v = Ok bytes
         /\ fst (get self k None w2) = Ok (PVal (VBytes bytes)).
Proof.
  intros Hinit Hlen Hstorable w1 keys w2 Hnodup.
  assert (Hself : _redis self = Redis) by (cbn in Hinit; now injection Hinit as <-).
  split.
  - now destruct (store_each_spec repr_str self values Hself Hstorable w1 0 [] []
                    eq_refl ltac:(lia) eq_refl eq_refl).
  - intros i v k Hv Hk.
    destruct (store_each_keeps self values Hself Hstorable w1 0 [] []
                eq_refl ltac:(lia) eq_refl eq_refl Hnodup i v k Hv Hk)
      as (bytes & Henc & Hkey).
    exists bytes. split; [exact Henc |].
    fold w2 in Hkey. now rewrite (get_present self k None w2 _ Hself Hkey).
Qed.

(** X7. [store] does not check that the identifier is unused: when the
    source of random bytes hands out the same block twice in a row, two
    successive calls (on values the client can encode) return the same
    identifier and the second value replaces the first. *)
Theorem store_same_identifier_overwrites (self : Cache) (first second : Scalar)
  (w : World) (n : Z) (ins outs : list string) (bytes1 bytes2 : string) :
  _redis self = Redis ->
  counter_value (db w) "Cache.store" = Some n -> n + 1 < INT64_MAX ->
  list_value (db w) "Cache.store:inputs" = Some ins ->
  list_value (db w) "Cache.store:outputs" = Some outs ->
  urandom w (S (draws w)) = urandom w (draws w) ->
  encode first = Ok bytes1 ->
  encode second = Ok bytes2 ->
  let w1 := snd (store repr_str self first w) in
  let w2 := snd (store repr_str self second w1) in
  fst (store repr_str self first w) = Ok (PVal (VText (next_key w)))
  /\ fst (get self (next_key w) None w1) = Ok (PVal (VBytes bytes1))
  /\ fst (store repr_str self second w1) = Ok (PVal (VText (next_key w)))
  /\ fst (get self (next_key w) None w2) = Ok (PVal (VBytes bytes2))
  /\ list_value (db w2) "Cache.store:outputs" = Some (outs ++ [next_key w; next_key w]).
Proof.
  intros Hself Hc Hn Hin Hout Hsame Henc1 Henc2 w1 w2.
  destruct (str_args_storable repr_str first bytes1 Henc1) as [input1 Hdisp1].
  destruct (str_args_storable repr_str second bytes2 Henc2) as [input2 Hdisp2].
  destruct (store_tracks repr_str self first w n ins outs bytes1 input1 Hself Hc
              ltac:(lia) Hin Hout Henc1 Hdisp1)
    as (Hr & Hc1 & Hin1 & Hout1 & Hkey1 & Hu & Hd & _).
  fold w1 in Hc1, Hin1, Hout1, Hkey1, Hu, Hd.
  assert (Hkey : next_key w1 = next_key w).
  { unfold next_key. now rewrite Hu, Hd, Hsame. }
  destruct (store_tracks repr_str self second w1 (n + 1) _ _ bytes2 input2 Hself Hc1
              Hn Hin1 Hout1 Henc2 Hdisp2)
    as (Hr2 & _ & _ & Hout2 & Hkey2 & _).
  fold w2 in Hout2, Hkey2. rewrite Hkey in Hr2, Hout2, Hkey2.
  split; [exact Hr |].
  split; [now rewrite (get_present self _ None w1 _ Hself Hkey1) |].
  split; [exact Hr2 |]. split.
  - now rewrite (get_present self _ None w2 _ Hself Hkey2).
  - now rewrite Hout2, <- app_assoc.
Qed.

(** X8. A successful call of [store] keeps the counter and the two
    histories in step: when the counter equals the length of both
    histories before the call, it does so after it.  A call that fails
    because the client cannot encode the value breaks the balance: it has
    been counted and nothing was recorded. *)
Theorem store_keeps_balance (self : Cache) (data : Scalar) (w : World) :
  _redis self = Redis ->
  store_ready (db w) = true ->
  balanced (db w) = true ->
  (storable data = true ->
   balanced (db (snd (store repr_str self data w))) = true)
  /\ (storable data = false ->
      balanced (db (snd (store repr_str self data w))) = false).
Proof.
  intros Hself Hready Hbal.
  destruct (store_ready_inv _ Hready) as (n & ins & outs & Hc & Hn & Hin & Hout).
  unfold balanced in Hbal. rewrite Hc, Hin, Hout in Hbal.
  apply andb_true_iff in Hbal as [Hcount Hlen].
  apply Z.eqb_eq in Hcount. apply Nat.eqb_eq in Hlen.
  pose proof (counter_value_bounds _ _ _ Hc) as [Hlo _].
  unfold storable. destruct (encode data) as [bytes | e] eqn:Henc.
  - split; [intros _ | discriminate].
    destruct (str_args_storable repr_str data bytes Henc) as [input Hdisp].
    destruct (store_tracks repr_str self data w n ins outs bytes input Hself Hc Hn
                Hin Hout Henc Hdisp)
      as (_ & Hc1 & Hin1 & Hout1 & _).
    unfold balanced. rewrite Hc1, Hin1, Hout1.
    apply andb_true_iff. split.
    + apply Z.eqb_eq. rewrite length_app. cbn [length]. lia.
    + apply Nat.eqb_eq. rewrite !length_app. cbn [length]. lia.
  - split; [discriminate | intros _].
    rewrite (store_refused repr_str self data w n e Hself Hc Hn Henc). cbn [snd db].
    unfold balanced, counter_value. rewrite lookup_insert_eq.
    rewrite (string2ll_repr_int (n + 1)) by lia.
    rewrite !list_value_insert_ne by discriminate. rewrite Hin, Hout.
    apply andb_false_iff. left. apply Z.eqb_neq. lia.
Qed.








(** X10. The typed getters after [store] of a value the client can
    encode are decided by the bytes of the value alone, whatever its type
    was: [get_str] returns them as text when they are well-formed UTF-8
    and fails with [UnicodeDecodeError] otherwise; [get_int] returns the
    integer they denote when they are a base-10 literal of at most 4300
    digits and fails with [ValueError] otherwise. *)
Theorem typed_getters_after_store (self : Cache) (data : Scalar) (w : World)
  (bytes : string) :
  _redis self = Redis ->
  store_ready (db w) = true ->
  encode data = Ok bytes ->
  let key := next_key w in
  let w' := snd (store repr_str self data w) in
  (utf8_valid bytes = true ->
   fst (get_str self key w') = Ok (PVal (VText bytes)))
  /\ (utf8_valid bytes = false ->
      fst (get_str self key w') = Raise UnicodeDecodeError)
  /\ (forall z, base10_literal bytes z -> (digit_count bytes <= MAX_STR_DIGITS)%nat ->
        fst (get_int self key w') = Ok (PVal (VInt z)))
  /\ ((forall z, ~ base10_literal bytes z) \/ (MAX_STR_DIGITS < digit_count bytes)%nat ->
      fst (get_int self key w') = Raise ValueError).
Proof.
  intros Hself Hready Henc key w'.
  destruct (store_ready_inv _ Hready) as (n & ins & outs & Hc & Hn & Hin & Hout).
  destruct (str_args_storable repr_str data bytes Henc) as [input Hdisp].
  destruct (store_tracks repr_str self data w n ins outs bytes input Hself Hc Hn
              Hin Hout Henc Hdisp)
    as (_ & _ & _ & _ & Hkey & _).
  fold w' in Hkey. fold key in Hkey.
  unfold get_str, get_int.
  rewrite !(get_present self key _ w' _ Hself Hkey). cbn [fst].
  unfold decode_lambda, decode_utf8, int_lambda, py_int.
  split; [now intros -> |]. split; [now intros -> |]. split.
  - intros z Hlit Hlen.
    now rewrite (proj2 (int_of_bytes_spec bytes z) (conj Hlit Hlen)).
  - intros [Hnone | Hover].
    + destruct (int_of_bytes bytes) as [z |] eqn:Hb; [| reflexivity].
      apply int_of_bytes_spec in Hb as [Hlit _]. now destruct (Hnone z).
    + now rewrite (int_of_bytes_over _ Hover).
Qed.

Lemma get_wrong_type (self : Cache) (key : string)
  (fn : option (option string -> result pyval)) (w : World) (l : list string) :
  _redis self = Redis -> db w !! key = Some (RList l) ->
  get self key fn w = (Raise ResponseError, after_refusal (GET key) w).
Proof.
  intros Hself Hkey. unfold get, handle_get. rewrite Hself.
  unfold bind, redis_get, execute_command, server_get. now rewrite Hkey.
Qed.

(** X11. The instrumentation lives in the same keyspace as the data.
    After a call of [store], [get_int] on the name of the method returns
    the number of calls counted so far, that call included even if the
    client then refused its value; and after a successful call, [get] on
    either history key fails with the store error, with or without a
    conversion: a history is a list, not a string. *)
Theorem get_on_instrumentation_keys (self : Cache) (data : Scalar) (w : World)
  (fn : option (option string -> result pyval)) :
  _redis self = Redis ->
  store_ready (db w) = true ->
  let n := default 0 (counter_value (db w) "Cache.store") in
  let w' := snd (store repr_str self data w) in
  fst (get_int self "Cache.store" w') = Ok (PVal (VInt (n + 1)))
  /\ (storable data = true ->
      fst (get self "Cache.store:inputs" fn w') = Raise ResponseError
      /\ fst (get self "Cache.store:outputs" fn w') = Raise ResponseError).
Proof.
  intros Hself Hready n w'.
  destruct (store_ready_inv _ Hready) as (n0 & ins & outs & Hc & Hn & Hin & Hout).
  subst n w'. rewrite Hc. cbn [default]. unfold id.
  destruct (str_uuid_fresh (uuid4_of (urandom w (draws w)))) as (Hk1 & Hk2 & Hk3).
  fold (next_key w) in Hk1, Hk2, Hk3.
  pose proof (counter_value_bounds _ _ _ Hc) as [Hlo _].
  assert (Hread : int_of_bytes (repr_int (n0 + 1)) = Some (n0 + 1)).
  { apply int_of_bytes_repr_int, int64_within_limit.
    unfold INT64_MIN, INT64_MAX in *. lia. }
  unfold storable. destruct (encode data) as [bytes | e] eqn:Henc.
  - destruct (str_args_storable repr_str data bytes Henc) as [input Hdisp].
    rewrite (store_spec repr_str self data w n0 ins outs bytes input Hself Hc Hn
               Hin Hout Henc Hdisp).
    cbn [snd].
    split; [| intros _; split].
    + unfold get_int. erewrite get_present; [| exact Hself |].
      * cbn [fst]. unfold int_lambda, py_int. now rewrite Hread.
      * cbn [db]. rewrite !lookup_insert_ne by (auto; discriminate).
        apply lookup_insert_eq.
    + erewrite get_wrong_type; [reflexivity | exact Hself |].
      cbn [db]. rewrite lookup_insert_ne by discriminate. apply lookup_insert_eq.
    + erewrite get_wrong_type; [reflexivity | exact Hself |].
      cbn [db]. apply lookup_insert_eq.
  - rewrite (store_refused repr_str self data w n0 e Hself Hc Hn Henc). cbn [snd].
    split; [| discriminate].
    unfold get_int. erewrite get_present; [| exact Hself |].
    + cbn [fst]. unfold int_lambda, py_int. now rewrite Hread.
    + cbn [db]. apply lookup_insert_eq.
Qed.

(** X18. An [int] of more than 4300 digits cannot be stored: on a cache
    with a [Redis] handle whose database can record one more call, the
    call is counted and an identifier is drawn, then the client raises
    [ValueError] when it encodes the value, before SET is sent.  The
    counter is the only key that changes: nothing is stored and nothing
    is recorded in either history. *)
Theorem store_unencodable_value (self : Cache) (z : Z) (w : World) :
  _redis self = Redis ->
  store_ready (db w) = true ->
  10 ^ 4300 <= Z.abs z ->
  let n := default 0 (counter_value (db w) "Cache.store") in
  let w' := snd (store repr_str self (VInt z) w) in
  fst (store repr_str self (VInt z) w) = Raise ValueError
  /\ cmds w' = cmds w ++ [INCR "Cache.store"]
  /\ counter_value (db w') "Cache.store" = Some (n + 1)
  /\ (forall key, key <> "Cache.store" -> db w' !! key = db w !! key)
  /\ draws w' = S (draws w)
  /\ stdout w' = stdout w.
Proof.
  intros Hself Hready Hz n w'.
  destruct (store_ready_inv _ Hready) as (n0 & ins & outs & Hc & Hn & Hin & Hout).
  subst n w'. rewrite Hc. cbn [default]. unfold id.
  pose proof (counter_value_bounds _ _ _ Hc) as [Hlo _].
  assert (Henc : encode (VInt z) = Raise ValueError).
  { cbn [encode]. unfold py_repr_int, within_str_limit, str_limit.
    replace (Z.abs z <? 10 ^ Z.of_nat MAX_STR_DIGITS) with false; [reflexivity |].
    symmetry. apply Z.ltb_ge. exact Hz. }
  rewrite (store_refused repr_str self (VInt z) w n0 _ Hself Hc Hn Henc).
  cbn [fst snd db cmds draws stdout].
  split; [reflexivity |]. split; [reflexivity |]. split; [| split; [| auto]].
  - unfold counter_value. rewrite lookup_insert_eq.
    apply string2ll_repr_int. lia.
  - intros key Hkey. now rewrite lookup_insert_ne by auto.
Qed.

End MoreProperties.

(** ** Reading never writes *)

Lemma quiet_ret {A : Type} (a : A) : quiet (ret a).
Proof.
  intros w. cbn. repeat split; [exists [] | exists []]; now rewrite ?app_nil_r.
Qed.

Lemma quiet_lift {A : Type} (r : result A) : quiet (lift r).
Proof.
  intros w. cbn. repeat split; [exists [] | exists []]; now rewrite ?app_nil_r.
Qed.

Lemma quiet_print (line : string) : quiet (print line).
Proof.
  intros w. cbn. repeat split; [exists [] | exists [line]]; now rewrite ?app_nil_r.
Qed.

Lemma quiet_bind {A B : Type} (m : M A) (f : A -> M B) :
  quiet m -> (forall a, quiet (f a)) -> quiet (bind m f).
Proof.
  intros Hm Hf w. unfold bind.
  destruct (Hm w) as (Hdb & Hu & Hd & (cs & Hcs & Hro) & (lines & Hlines)).
  destruct (m w) as [[a | e] w1]; cbn [snd] in *.
  - destruct (Hf a w1) as (Hdb2 & Hu2 & Hd2 & (cs2 & Hcs2 & Hro2) & (lines2 & Hlines2)).
    split; [congruence |]. split; [congruence |]. split; [congruence |]. split.
    + exists (cs ++ cs2). rewrite Hcs2, Hcs, <- app_assoc, forallb_app, Hro, Hro2. auto.
    + exists (lines ++ lines2). now rewrite Hlines2, Hlines, <- app_assoc.
  - repeat split; try assumption; [exists cs | exists lines]; auto.
Qed.

(** A command that only reads, answered by a server function that leaves
    the database as it is. *)
Lemma quiet_execute {A : Type} (c : command)
  (run : gmap string rvalue -> result A * gmap string rvalue) :
  reads_only c = true -> (forall d, snd (run d) = d) ->
  quiet (execute_command c run).
Proof.
  intros Hc Hrun w. unfold execute_command.
  specialize (Hrun (db w)). destruct (run (db w)) as [r d]. cbn [snd] in *.
  subst d. repeat split; [exists [c] | exists []]; cbn; rewrite ?Hc, ?app_nil_r; auto.
Qed.

Lemma quiet_redis_exists (name : string) : quiet (redis_exists name).
Proof.
  apply quiet_execute; [reflexivity |].
  intros d. unfold server_exists. now destruct (d !! name).
Qed.

Lemma quiet_redis_get (name : string) : quiet (redis_get name).
Proof.
  apply quiet_execute; [reflexivity |].
  intros d. unfold server_get. now destruct (d !! name) as [[| |] |].
Qed.

Lemma quiet_redis_lrange (name : string) (start stop : Z) :
  quiet (redis_lrange name start stop).
Proof.
  apply quiet_execute; [reflexivity |].
  intros d. unfold server_lrange. now destruct (d !! name) as [[| |] |].
Qed.

Lemma quiet_replay_loop (name : string) (pairs : list (string * string)) :
  quiet (replay_loop name pairs).
Proof.
  induction pairs as [| [i o] pairs IH]; cbn [replay_loop].
  - apply quiet_ret.
  - apply quiet_bind; [apply quiet_lift |]. intros text.
    apply quiet_bind; [apply quiet_print |]. intros _. exact IH.
Qed.

Lemma quiet_replay (fn : callable) : quiet (replay fn).
Proof.
  destruct fn as [| q | self name]; try apply quiet_ret.
  unfold replay. destruct (getattr_redis self) as [[| o] |]; try apply quiet_ret.
  apply quiet_bind; [apply quiet_redis_exists |]. intros present.
  apply quiet_bind.
  - destruct (present =? 0); [apply quiet_ret |].
    apply quiet_bind; [apply quiet_redis_get |]. intros value. apply quiet_lift.
  - intros count. apply quiet_bind; [apply quiet_lift |]. intros header.
    apply quiet_bind; [apply quiet_print |]. intros _.
    apply quiet_bind; [apply quiet_redis_lrange |]. intros ins.
    apply quiet_bind; [apply quiet_redis_lrange |]. intros outs.
    apply quiet_replay_loop.
Qed.

(** X12. [replay] never writes: for every argument and every state of
    the server, whether it returns or raises, the database is what it
    was, no identifier is drawn, the commands it sent are all among
    EXISTS, GET and LRANGE, and what was printed before is still there. *)
Theorem replay_read_only (fn : callable) (w : World) :
  let w' := snd (replay fn w) in
  db w' = db w
  /\ urandom w' = urandom w
  /\ draws w' = draws w
  /\ (exists cs, cmds w' = cmds w ++ cs /\ forallb reads_only cs = true)
  /\ (exists lines, stdout w' = stdout w ++ lines).
Proof. exact (quiet_replay fn w). Qed.

(** X13. [get], and so [get_str] and [get_int], with a [Redis] handle:
    whatever the key holds and whatever the conversion does, exactly one
    GET is sent, the database is left as it was and nothing is printed. *)
Theorem get_read_only (self : Cache) (key : string)
  (fn : option (option string -> result pyval)) (w : World) :
  _redis self = Redis ->
  let w' := snd (get self key fn w) in
  db w' = db w
  /\ cmds w' = cmds w ++ [GET key]
  /\ stdout w' = stdout w
  /\ draws w' = draws w.
Proof.
  intros Hself w'. subst w'. unfold get, handle_get. rewrite Hself.
  unfold bind, redis_get, execute_command, server_get, lift, ret.
  destruct (db w !! key) as [[b | l |] |]; destruct fn as [f |]; now cbn.
Qed.

(** X14. [get_str] on a key that holds a string: the text when the bytes
    are well-formed UTF-8, [UnicodeDecodeError] when they are not. *)
Theorem get_str_contract (self : Cache) (key : string) (w : World) (b : string) :
  _redis self = Redis ->
  db w !! key = Some (RStr b) ->
  (utf8_valid b = true -> fst (get_str self key w) = Ok (PVal (VText b)))
  /\ (utf8_valid b = false -> fst (get_str self key w) = Raise UnicodeDecodeError).
Proof.
  intros Hself Hkey. unfold get_str.
  rewrite (get_present self key _ w b Hself Hkey). cbn [fst].
  unfold decode_lambda, decode_utf8. split; now intros ->.
Qed.

(** ** How [replay] fails *)

Lemma replay_loop_stops (name : string) (good : list (string * string))
  (bad output : string) (rest : list (string * string)) :
  forall w : World,
  forallb (fun p => utf8_valid p.1) good = true ->
  utf8_valid bad = false ->
  replay_loop name (good ++ (bad, output) :: rest) w
  = (Raise UnicodeDecodeError,
     mkWorld (db w) (cmds w)
       (stdout w ++ map (fun p => history_line name p.1 p.2) good)
       (urandom w) (draws w)).
Proof.
  induction good as [| [i o] good IH]; intros w Hgood Hbad.
  - cbn [app replay_loop map]. unfold bind, lift, decode_utf8. rewrite Hbad.
    rewrite app_nil_r. now destruct w.
  - cbn [forallb fst] in Hgood. apply andb_true_iff in Hgood as [Hi Hgood].
    cbn [app replay_loop]. unfold bind at 1. unfold lift, decode_utf8. rewrite Hi.
    unfold bind at 1. unfold print.
    rewrite (IH _ Hgood Hbad). cbn [db cmds stdout urandom draws map fst snd].
    now rewrite <- app_assoc.
Qed.

(** X16. When the counter key cannot be read as an integer (it holds a
    list, or bytes that [int] rejects), [replay] fails with the exception
    of that reading and prints nothing, not even the header. *)
Theorem replay_unreadable_counter (self : pyobject) (name : string) (w : World)
  (e : exn) :
  getattr_redis self = Some Redis ->
  read_count (db w !! name) = Raise e ->
  fst (replay (BoundMethod self name) w) = Raise e
  /\ stdout (snd (replay (BoundMethod self name) w)) = stdout w.
Proof.
  intros Hself Hcount. unfold replay. rewrite Hself.
  unfold read_count in Hcount.
  assert (Hheld : exists held, db w !! name = Some held)
    by (destruct (db w !! name); [eauto | discriminate Hcount]).
  destruct Hheld as [held Hkey].
  assert (Hexists : redis_exists name w = (Ok 1, after_refusal (EXISTS name) w))
    by (unfold redis_exists, execute_command, server_exists; now rewrite Hkey).
  rewrite (bind_ok _ _ _ _ _ Hexists). cbn [Z.eqb].
  assert (Hread : bind (redis_get name) (fun value => lift (py_int value))
                    (after_refusal (EXISTS name) w)
                  = (Raise e, after_refusal (GET name) (after_refusal (EXISTS name) w))).
  { unfold bind, redis_get, execute_command, server_get, lift, after_refusal.
    cbn [db cmds stdout urandom draws]. rewrite Hkey. rewrite Hkey in Hcount.
    destruct held as [b | l |].
    - now rewrite Hcount.
    - now injection Hcount as <-.
    - now injection Hcount as <-. }
  rewrite (bind_raise _ _ _ _ _ Hread). now cbn.
Qed.

Lemma redis_lrange_wrong (key : string) (start stop : Z) (w : World) :
  list_value (db w) key = None ->
  redis_lrange key start stop w
  = (Raise ResponseError, after_refusal (LRANGE key start stop) w).
Proof.
  unfold list_value, redis_lrange, execute_command, server_lrange.
  destruct (db w !! key) as [[b | l |] |]; try discriminate; reflexivity.
Qed.

(** X17. The header is printed before the histories are fetched, and
    each line before the next input is decoded.  So when a history key
    holds something that is not a list, [replay] prints the header and
    then fails with the store error; and when an input that gets paired
    is not well-formed UTF-8, it prints the header and the lines of the
    pairs before it and then fails with [UnicodeDecodeError]. *)
Theorem replay_partial_output (self : pyobject) (name : string) (w : World)
  (count : Z) :
  getattr_redis self = Some Redis ->
  read_count (db w !! name) = Ok count ->
  let w' := snd (replay (BoundMethod self name) w) in
  (list_value (db w) (name +:+ ":inputs") = None
   \/ list_value (db w) (name +:+ ":outputs") = None ->
   fst (replay (BoundMethod self name) w) = Raise ResponseError
   /\ stdout w' = stdout w ++ [header_line name count])
  /\ (forall ins outs good bad output rest,
        list_value (db w) (name +:+ ":inputs") = Some ins ->
        list_value (db w) (name +:+ ":outputs") = Some outs ->
        zip ins outs = good ++ (bad, output) :: rest ->
        forallb (fun p => utf8_valid p.1) good = true ->
        utf8_valid bad = false ->
        fst (replay (BoundMethod self name) w) = Raise UnicodeDecodeError
        /\ stdout w'
           = stdout w ++ header_line name count
             :: map (fun p => history_line name p.1 p.2) good).
Proof.
  intros Hself Hcount w'. subst w'.
  rewrite (replay_header self name w count Hself Hcount).
  split.
  - intros Hbad.
    match goal with |- context [bind _ _ ?w0] => set (wh := w0) end.
    destruct (list_value (db w) (name +:+ ":inputs")) as [ins |] eqn:Hins.
    + destruct Hbad as [Hbad | Hbad]; [discriminate Hbad |].
      rewrite (bind_ok _ _ wh _ _ (redis_lrange_all _ wh ins Hins)).
      match goal with |- context [bind _ _ ?w0] =>
        rewrite (bind_raise _ _ w0 _ _ (redis_lrange_wrong _ 0 (-1) w0 Hbad)) end.
      now cbn.
    + rewrite (bind_raise _ _ wh _ _ (redis_lrange_wrong _ 0 (-1) wh Hins)).
      now cbn.
  - intros ins outs good bad output rest Hins Houts Hzip Hgood Hbad.
    match goal with |- context [bind _ _ ?w0] =>
      rewrite (bind_ok _ _ w0 _ _ (redis_lrange_all _ w0 ins Hins)) end.
    match goal with |- context [bind _ _ ?w0] =>
      rewrite (bind_ok _ _ w0 _ _ (redis_lrange_all _ w0 outs Houts)) end.
    rewrite Hzip, (replay_loop_stops name good bad output rest _ Hgood Hbad).
    cbn [fst snd stdout]. split; [reflexivity |]. now rewrite <- app_assoc.
Qed.

(** ** Worked instances of the further properties *)

Lemma count_calls_counts_first_witness :
  _redis cache0 = Redis
  /\ binds_self [] = false
  /\ counter_value (db world0) (__qualname__ silent) = Some 0
  /\ 0 < INT64_MAX
  /\ call (count_calls silent) cache0 [] [] world0
     = call silent cache0 [] [] (after_incr "Cache.touch" 0 world0)
  /\ binds_self [("self", VInt 1)] = true
  /\ call (count_calls silent) cache0 [] [("self", VInt 1)] world0
     = (Raise TypeError, world0).
Proof.
  split; [reflexivity |]. split; [reflexivity |]. split; [reflexivity |].
  split; [reflexivity |].
  split;
    [exact (proj1 (proj2 (count_calls_counts_first silent cache0 [] [] world0 eq_refl)
                     eq_refl)
              0 eq_refl eq_refl) |].
  split; [reflexivity |].
  exact (proj1 (count_calls_counts_first silent cache0 [] [("self", VInt 1)] world0
                  eq_refl)
           eq_refl).
Defined.

Lemma call_history_outcomes_witness :
  _redis cache0 = Redis
  /\ binds_self [] = false
  /\ call silent cache0 [VInt 1] [] world0 = (Ok PNone, world0)
  /\ list_value (db world0) "Cache.touch:inputs" = Some []
  /\ str_args quoted [VInt 1] = Ok "(1,)"
  /\ fst (call (call_history quoted silent) cache0 [VInt 1] [] world0)
     = Raise (OtherError "DataError")
  /\ db (snd (call (call_history quoted silent) cache0 [VInt 1] [] world0))
     = <["Cache.touch:inputs" := RList ["(1,)"]]> ∅
  /\ call failing cache0 [] [] world0 = (Raise (OtherError "RuntimeError"), world0)
  /\ call (call_history quoted failing) cache0 [] [] world0
     = (Raise (OtherError "RuntimeError"), world0)
  /\ call silent cache0 [VInt (10 ^ 4300)] [] world0 = (Ok PNone, world0)
  /\ str_args quoted [VInt (10 ^ 4300)] = Raise ValueError
  /\ call (call_history quoted silent) cache0 [VInt (10 ^ 4300)] [] world0
     = (Raise ValueError, world0).
Proof.
  split; [reflexivity |]. split; [reflexivity |]. split; [reflexivity |].
  split; [reflexivity |]. split; [reflexivity |].
  pose proof (proj2 (call_history_outcomes quoted silent cache0 [VInt 1] [] world0
                       world0 eq_refl) eq_refl)
    as (_ & _ & Hnone & _).
  destruct (Hnone [] "(1,)" eq_refl eq_refl eq_refl) as [Hres Hdb].
  split; [exact Hres |]. split; [exact Hdb |]. split; [reflexivity |].
  split;
    [exact (proj1 (proj2 (call_history_outcomes quoted failing cache0 [] [] world0
                            world0 eq_refl) eq_refl)
              _ eq_refl) |].
  split; [reflexivity |].
  assert (Hbig : str_args quoted [VInt (10 ^ 4300)] = Raise ValueError)
    by (vm_compute; reflexivity).
  split; [exact Hbig |].
  pose proof (proj2 (call_history_outcomes quoted silent cache0 [VInt (10 ^ 4300)] []
                       world0 world0 eq_refl) eq_refl)
    as (_ & _ & _ & _ & Hnodisplay).
  exact (Hnodisplay PNone ValueError eq_refl Hbig).
Defined.

Lemma store_counts_failed_call_witness :
  _redis cache0 = Redis
  /\ counter_value (db world0) "Cache.store" = Some 0
  /\ 0 < INT64_MAX
  /\ binds_self [] = false
  /\ bind_data [VInt 1; VInt 2] [] = Raise TypeError
  /\ call (store_decorated quoted) cache0 [VInt 1; VInt 2] [] world0
     = (Raise TypeError, after_incr "Cache.store" 0 world0)
  /\ binds_self [("self", VInt 1)] = true
  /\ call (store_decorated quoted) cache0 [] [("self", VInt 1)] world0
     = (Raise TypeError, world0).
Proof.
  split; [reflexivity |]. split; [reflexivity |]. split; [reflexivity |].
  split; [reflexivity |]. split; [reflexivity |].
  split;
    [exact (proj1 (proj1 (store_counts_failed_call quoted cache0 [VInt 1; VInt 2] []
                            world0 0 TypeError eq_refl eq_refl eq_refl)
                     eq_refl eq_refl)) |].
  split; [reflexivity |].
  exact (proj2 (store_counts_failed_call quoted cache0 [] [("self", VInt 1)]
                  world0 0 TypeError eq_refl eq_refl eq_refl)
           eq_refl).
Defined.

Lemma store_by_keyword_witness :
  _redis cache0 = Redis
  /\ store_ready (db stocked) = true
  /\ encode (VInt 3) = Ok "3"
  /\ list_value
       (db (snd (call (store_decorated quoted) cache0 [] [("data", VInt 3)] stocked)))
       "Cache.store:inputs" = Some ["(1,)"; "(2,)"; "()"].
Proof.
  split; [reflexivity |]. split; [reflexivity |]. split; [reflexivity |].
  exact (proj1 (proj2 (proj2 (proj2 (store_by_keyword quoted cache0 (VInt 3) stocked
                                       "3" eq_refl eq_refl eq_refl))))).
Defined.

Lemma store_changes_four_keys_witness :
  _redis cache0 = Redis
  /\ store_ready (db stocked) = true
  /\ "greeting" <> next_key stocked
  /\ db (snd (store quoted cache0 (VInt 3) stocked)) !! "greeting"
     = Some (RStr "foo").
Proof.
  split; [reflexivity |]. split; [reflexivity |].
  assert (Hkey : "greeting" <> next_key stocked) by (vm_compute; discriminate).
  split; [exact Hkey |].
  exact (proj1 (store_changes_four_keys quoted cache0 (VInt 3) stocked "greeting"
                  eq_refl eq_refl ltac:(discriminate) ltac:(discriminate)
                  ltac:(discriminate) Hkey)).
Defined.

Lemma store_each_retrievable_witness :
  fst (Cache_init stocked) = Ok cache0
  /\ Z.of_nat (length [VText "foo"; VInt 123]) <= INT64_MAX
  /\ forallb storable [VText "foo"; VInt 123] = true
  /\ NoDup (next_keys (snd (Cache_init stocked)) 2)
  /\ fst (get cache0 "00000000-0000-4000-8000-000000000001" None
            (snd (store_each quoted cache0 [VText "foo"; VInt 123]
                    (snd (Cache_init stocked)))))
     = Ok (PVal (VBytes "123")).
Proof.
  split; [reflexivity |].
  assert (Hlen : Z.of_nat (length [VText "foo"; VInt 123]) <= INT64_MAX)
    by (vm_compute; discriminate).
  split; [exact Hlen |]. split; [reflexivity |].
  assert (Hnodup : NoDup (next_keys (snd (Cache_init stocked)) 2)).
  { vm_compute. apply NoDup_cons. split.
    - intros Hin. apply list_elem_of_singleton in Hin. discriminate Hin.
    - apply NoDup_singleton. }
  split; [exact Hnodup |].
  destruct (proj2 (store_each_retrievable quoted cache0 [VText "foo"; VInt 123]
                     stocked eq_refl Hlen eq_refl Hnodup)
              1%nat (VInt 123) "00000000-0000-4000-8000-000000000001"
              eq_refl eq_refl)
    as (bytes & Henc & Hget).
  assert (Hbytes : encode (VInt 123) = Ok "123") by reflexivity.
  rewrite Hbytes in Henc. injection Henc as <-. exact Hget.
Defined.

Lemma store_same_identifier_overwrites_witness :
  _redis cache0 = Redis
  /\ counter_value (db repeating) "Cache.store" = Some 0
  /\ 0 + 1 < INT64_MAX
  /\ list_value (db repeating) "Cache.store:inputs" = Some []
  /\ list_value (db repeating) "Cache.store:outputs" = Some []
  /\ urandom repeating (S (draws repeating)) = urandom repeating (draws repeating)
  /\ encode (VInt 1) = Ok "1"
  /\ encode (VInt 2) = Ok "2"
  /\ fst (get cache0 (next_key repeating) None
            (snd (store quoted cache0 (VInt 2)
                    (snd (store quoted cache0 (VInt 1) repeating)))))
     = Ok (PVal (VBytes "2")).
Proof.
  split; [reflexivity |]. split; [reflexivity |]. split; [reflexivity |].
  split; [reflexivity |]. split; [reflexivity |]. split; [reflexivity |].
  split; [reflexivity |]. split; [reflexivity |].
  exact (proj1 (proj2 (proj2 (proj2 (store_same_identifier_overwrites quoted cache0
                                (VInt 1) (VInt 2) repeating 0 [] [] "1" "2"
                                eq_refl eq_refl eq_refl eq_refl eq_refl eq_refl
                                eq_refl eq_refl))))).
Defined.

Lemma store_keeps_balance_witness :
  _redis cache0 = Redis
  /\ store_ready (db stocked) = true
  /\ balanced (db stocked) = true
  /\ storable (VInt 3) = true
  /\ balanced (db (snd (store quoted cache0 (VInt 3) stocked))) = true
  /\ storable (VInt (10 ^ 4300)) = false
  /\ balanced (db (snd (store quoted cache0 (VInt (10 ^ 4300)) stocked))) = false.
Proof.
  split; [reflexivity |]. split; [reflexivity |]. split; [reflexivity |].
  split; [reflexivity |].
  split;
    [exact (proj1 (store_keeps_balance quoted cache0 (VInt 3) stocked
                     eq_refl eq_refl eq_refl) eq_refl) |].
  assert (Hbig : storable (VInt (10 ^ 4300)) = false) by (vm_compute; reflexivity).
  split; [exact Hbig |].
  exact (proj2 (store_keeps_balance quoted cache0 (VInt (10 ^ 4300)) stocked
                  eq_refl eq_refl eq_refl) Hbig).
Defined.


Lemma typed_getters_after_store_witness :
  _redis cache0 = Redis
  /\ store_ready (db world0) = true
  /\ encode (VBytes stray) = Ok stray
  /\ utf8_valid stray = false
  /\ fst (get_str cache0 (next_key world0)
            (snd (store quoted cache0 (VBytes stray) world0)))
     = Raise UnicodeDecodeError
  /\ encode (VText " 5 ") = Ok " 5 "
  /\ base10_literal " 5 " 5
  /\ (digit_count " 5 " <= MAX_STR_DIGITS)%nat
  /\ fst (get_int cache0 (next_key world0)
            (snd (store quoted cache0 (VText " 5 ") world0)))
     = Ok (PVal (VInt 5)).
Proof.
  split; [reflexivity |]. split; [reflexivity |]. split; [reflexivity |].
  split; [reflexivity |].
  split;
    [exact (proj1 (proj2 (typed_getters_after_store quoted cache0 (VBytes stray)
                            world0 stray eq_refl eq_refl eq_refl))
              eq_refl) |].
  split; [reflexivity |]. split; [exact literal_five |].
  assert (Hlen : (digit_count " 5 " <= MAX_STR_DIGITS)%nat)
    by (vm_compute; lia).
  split; [exact Hlen |].
  exact (proj1 (proj2 (proj2 (typed_getters_after_store quoted cache0 (VText " 5 ")
                                world0 " 5 " eq_refl eq_refl eq_refl)))
           5 literal_five Hlen).
Defined.

Lemma get_on_instrumentation_keys_witness :
  _redis cache0 = Redis
  /\ store_ready (db stocked) = true
  /\ fst (get_int cache0 "Cache.store" (snd (store quoted cache0 (VInt 3) stocked)))
     = Ok (PVal (VInt 3))
  /\ storable (VInt 3) = true
  /\ fst (get cache0 "Cache.store:inputs" None
            (snd (store quoted cache0 (VInt 3) stocked)))
     = Raise ResponseError.
Proof.
  split; [reflexivity |]. split; [reflexivity |].
  pose proof (get_on_instrumentation_keys quoted cache0 (VInt 3) stocked None
                eq_refl eq_refl) as (Hcount & Hlists).
  split; [exact Hcount |]. split; [reflexivity |].
  exact (proj1 (Hlists eq_refl)).
Defined.

Lemma get_read_only_witness :
  _redis cache0 = Redis
  /\ db (snd (get cache0 "Cache.store:inputs" (Some int_lambda) stocked)) = db stocked
  /\ cmds (snd (get cache0 "Cache.store:inputs" (Some int_lambda) stocked))
     = [GET "Cache.store:inputs"].
Proof.
  split; [reflexivity |].
  pose proof (get_read_only cache0 "Cache.store:inputs" (Some int_lambda) stocked
                eq_refl) as (Hdb & Hcmds & _).
  split; [exact Hdb | exact Hcmds].
Defined.

Lemma get_str_contract_witness :
  _redis cache0 = Redis
  /\ db damaged !! "blob" = Some (RStr stray)
  /\ utf8_valid stray = false
  /\ fst (get_str cache0 "blob" damaged) = Raise UnicodeDecodeError
  /\ db stocked !! "greeting" = Some (RStr "foo")
  /\ utf8_valid "foo" = true
  /\ fst (get_str cache0 "greeting" stocked) = Ok (PVal (VText "foo")).
Proof.
  split; [reflexivity |]. split; [reflexivity |]. split; [reflexivity |].
  split;
    [exact (proj2 (get_str_contract cache0 "blob" damaged stray eq_refl eq_refl)
              eq_refl) |].
  split; [reflexivity |]. split; [reflexivity |].
  exact (proj1 (get_str_contract cache0 "greeting" stocked "foo" eq_refl eq_refl)
           eq_refl).
Defined.

Lemma replay_unreadable_counter_witness :
  getattr_redis (Instance cache0) = Some Redis
  /\ read_count (db damaged !! "Cache.get") = Raise ValueError
  /\ fst (replay (BoundMethod (Instance cache0) "Cache.get") damaged) = Raise ValueError
  /\ stdout (snd (replay (BoundMethod (Instance cache0) "Cache.get") damaged)) = [].
Proof.
  split; [reflexivity |]. split; [reflexivity |].
  exact (replay_unreadable_counter (Instance cache0) "Cache.get" damaged ValueError
           eq_refl eq_refl).
Defined.

Lemma replay_partial_output_witness :
  getattr_redis (Instance cache0) = Some Redis
  /\ read_count (db damaged !! "Cache.get_str") = Ok 0
  /\ list_value (db damaged) "Cache.get_str:inputs" = None
  /\ stdout (snd (replay (BoundMethod (Instance cache0) "Cache.get_str") damaged))
     = ["Cache.get_str was called 0 times:"]
  /\ read_count (db damaged !! "Cache.store") = Ok 2
  /\ fst (replay (BoundMethod (Instance cache0) "Cache.store") damaged)
     = Raise UnicodeDecodeError
  /\ stdout (snd (replay (BoundMethod (Instance cache0) "Cache.store") damaged))
     = ["Cache.store was called 2 times:"; "Cache.store(*(1,)) -> b'a'"].
Proof.
  split; [reflexivity |]. split; [reflexivity |]. split; [reflexivity |].
  split;
    [exact (proj2 (proj1 (replay_partial_output (Instance cache0) "Cache.get_str"
                            damaged 0 eq_refl eq_refl)
                     (or_introl eq_refl))) |].
  split; [reflexivity |].
  exact (proj2 (replay_partial_output (Instance cache0) "Cache.store" damaged 2
                  eq_refl eq_refl)
           ["(1,)"; stray] ["a"; "b"] [("(1,)", "a")] stray "b" []
           eq_refl eq_refl eq_refl eq_refl eq_refl).
Defined.

Lemma store_unencodable_value_witness :
  _redis cache0 = Redis
  /\ store_ready (db stocked) = true
  /\ 10 ^ 4300 <= Z.abs (10 ^ 4300)
  /\ fst (store quoted cache0 (VInt (10 ^ 4300)) stocked) = Raise ValueError
  /\ cmds (snd (store quoted cache0 (VInt (10 ^ 4300)) stocked))
     = [INCR "Cache.store"]
  /\ counter_value (db (snd (store quoted cache0 (VInt (10 ^ 4300)) stocked)))
       "Cache.store" = Some 3.
Proof.
  split; [reflexivity |]. split; [reflexivity |].
  assert (Hbig : 10 ^ 4300 <= Z.abs (10 ^ 4300)) by (vm_compute; discriminate).
  split; [exact Hbig |].
  pose proof (store_unencodable_value quoted cache0 (10 ^ 4300) stocked
                eq_refl eq_refl Hbig) as (Hres & Hcmds & Hcount & _).
  split; [exact Hres |]. split; [exact Hcmds | exact Hcount].
Defined.
